(** * sane/image.go: frame assembly, pixel decoding, page acquisition

    A shallow embedding of [image.go] of the Go package [sane]:
    the [Image] type with [Bounds], [ColorModel] and [At], the frame
    assembler [loadImage], and the three acquisition strategies
    [ReadImage], [ReadAvailableImages] and [ContinuousRead].

    Go's [int] is modelled as [Z] (only comparisons are performed on it),
    [uint8]/[uint16] as [Z] with the wrap-around written out, a [*Frame]
    as [option Frame] ([None] is the nil pointer), and the connection as
    an explicit state that is threaded through every call. *)

From Stdlib Require Import String ZArith List Bool Lia Permutation.
Import ListNotations.
Local Open Scope Z_scope.

Set Implicit Arguments.

(* ===================================================================== *)
(** ** Machine integers *)

Definition uint8 (z : Z) : Z := z mod 2 ^ 8.
Definition uint16 (z : Z) : Z := z mod 2 ^ 16.

(** Product of two [uint16] operands, as in [0xFF * s]. *)
Definition mul16 (a b : Z) : Z := uint16 (a * b).

(* ===================================================================== *)
(** ** Nil dereference

    Reading a field through a nil [*Frame] panics.  [outcome A] is the
    result of an expression that may do so. *)

Inductive outcome (A : Type) : Type :=
| Returns (a : A)
| Panics.
Arguments Panics {A}.

Definition obind {A B} (o : outcome A) (k : A -> outcome B) : outcome B :=
  match o with
  | Returns a => k a
  | Panics => Panics
  end.

Notation "x <- e ;; k" := (obind e (fun x => k))
  (at level 61, e at next level, right associativity).

(** [*p] for a pointer [p]. *)
Definition deref {A} (p : option A) : outcome A :=
  match p with
  | Some a => Returns a
  | None => Panics
  end.

(* ===================================================================== *)
(** ** Frames *)

(** Modelled from the spec: the five [Format] constants are declared
    outside image.go (they are the SANE_FRAME_* values of the SANE API).
    The development relies only on their being pairwise distinct. *)
Definition FrameGray : Z := 0.
Definition FrameRgb : Z := 1.
Definition FrameRed : Z := 2.
Definition FrameGreen : Z := 3.
Definition FrameBlue : Z := 4.

(** Modelled from the spec: the [Frame] struct is declared outside
    image.go.  Its fields are the ones image.go reads; [data] stands for
    the raw sample store, addressed by (x, y, channel). *)
Record Frame : Type := mkFrame {
  Format : Z;
  Width : Z;
  Height : Z;
  Depth : Z;
  IsLast : bool;
  data : Z -> Z -> Z -> Z
}.

(** The sample a frame holds at (x, y, ch), as a [uint16]. *)
Definition sample (f : Frame) (x y ch : Z) : Z := uint16 (data f x y ch).

(** Modelled from the spec: the method [At] of [Frame] is defined
    outside image.go; access by (x, y, channel) returns the sample
    widened to a 16-bit unsigned value.  The receiver is a pointer whose
    fields are read, so a nil receiver panics. *)
Definition Frame_At (p : option Frame) (x y ch : Z) : outcome Z :=
  f <- deref p ;;
  Returns (sample f x y ch).

(* ===================================================================== *)
(** ** Colours, colour models, rectangles (image, image/color) *)

Inductive Color : Type :=
| RGBA (r g b a : Z)
| RGBA64 (r g b a : Z)
| Gray (y : Z)
| Gray16 (y : Z).

Inductive Model : Type :=
| GrayModel
| Gray16Model
| RGBAModel
| RGBA64Model.

Definition opaque8 : Z := uint8 0xff.
Definition opaque16 : Z := uint16 0xffff.

Record Rectangle : Type := mkRectangle {
  MinX : Z; MinY : Z; MaxX : Z; MaxY : Z
}.

(** [image.Rect]: the rectangle is canonicalised so that Min <= Max. *)
Definition Rect (x0 y0 x1 y1 : Z) : Rectangle :=
  let '(x0, x1) := if x0 >? x1 then (x1, x0) else (x0, x1) in
  let '(y0, y1) := if y0 >? y1 then (y1, y0) else (y0, y1) in
  mkRectangle x0 y0 x1 y1.

(* ===================================================================== *)
(** ** Image *)

(** [fs [3]*Frame]: three slots, in RGB order. *)
Record Image : Type := mkImage {
  fs0 : option Frame;
  fs1 : option Frame;
  fs2 : option Frame
}.

(** The zero value [Image{}]. *)
Definition emptyImage : Image := mkImage None None None.

Definition Bounds (m : Image) : outcome Rectangle :=
  f <- deref (fs0 m) ;;
  Returns (Rect 0 0 (Width f) (Height f)).

Definition ColorModel (m : Image) : outcome Model :=
  f <- deref (fs0 m) ;;
  if negb (Depth f =? 16) && (Format f =? FrameGray) then Returns GrayModel
  else if (Depth f =? 16) && (Format f =? FrameGray) then Returns Gray16Model
  else if negb (Depth f =? 16) && negb (Format f =? FrameGray) then Returns RGBAModel
  else if (Depth f =? 16) && negb (Format f =? FrameGray) then Returns RGBA64Model
  else Returns RGBAModel.

(** The depth switch of the colour path of [At]; the last line is the
    function's final [return color.RGBA{}]. *)
Definition packRGB (depth r g b : Z) : Color :=
  if depth =? 1 then
    RGBA (uint8 (mul16 0xFF r)) (uint8 (mul16 0xFF g)) (uint8 (mul16 0xFF b)) opaque8
  else if depth =? 8 then
    RGBA (uint8 r) (uint8 g) (uint8 b) opaque8
  else if depth =? 16 then
    RGBA64 r g b opaque16
  else RGBA 0 0 0 0.

(** [At]: the bounds test is the short-circuit disjunction
    [x < 0 || x >= m.fs[0].Width || y < 0 || y >= m.fs[0].Height], so the
    primary frame is first read only once [x < 0] is false. *)
Definition At (m : Image) (x y : Z) : outcome Color :=
  if x <? 0 then Returns (RGBA 0 0 0 0) else
  f0 <- deref (fs0 m) ;;
  if x >=? Width f0 then Returns (RGBA 0 0 0 0) else
  if y <? 0 then Returns (RGBA 0 0 0 0) else
  if y >=? Height f0 then Returns (RGBA 0 0 0 0) else
  if Format f0 =? FrameGray then
    (* grayscale *)
    if Depth f0 =? 1 then
      s <- Frame_At (fs0 m) x y 0 ;; Returns (Gray (uint8 (mul16 0xFF s)))
    else if Depth f0 =? 8 then
      s <- Frame_At (fs0 m) x y 0 ;; Returns (Gray (uint8 s))
    else if Depth f0 =? 16 then
      s <- Frame_At (fs0 m) x y 0 ;; Returns (Gray16 s)
    else Returns (RGBA 0 0 0 0)
  else
    (* color *)
    rgb <- (if Format f0 =? FrameRgb then
              (* interleaved *)
              r <- Frame_At (fs0 m) x y 0 ;;
              g <- Frame_At (fs0 m) x y 1 ;;
              b <- Frame_At (fs0 m) x y 2 ;;
              Returns (r, g, b)
            else
              (* non-interleaved *)
              r <- Frame_At (fs0 m) x y 0 ;;
              g <- Frame_At (fs1 m) x y 0 ;;
              b <- Frame_At (fs2 m) x y 0 ;;
              Returns (r, g, b)) ;;
    let '(r, g, b) := rgb in
    Returns (packRGB (Depth f0) r g b).

(* ===================================================================== *)
(** ** Errors *)

(** Modelled from the spec: the status values of type [Error] are
    declared outside image.go; these are the ones the package's tests
    enumerate. *)
Inductive Error : Type :=
| ErrUnsupported
| ErrCancelled
| ErrBusy
| ErrInvalid
| ErrJammed
| ErrEmpty
| ErrCoverOpen
| ErrIo
| ErrNoMem
| ErrDenied.

(** A value of Go's interface type [error]: a status of the package,
    the value built by [fmt.Errorf("unknown frame type %d", format)],
    or any other error (of the transport, or of a page handler). *)
Inductive error : Type :=
| Status (e : Error)
| UnknownFrameType (format : Z)
| OtherError (msg : string).

(** [err == ErrEmpty]. *)
Definition isErrEmpty (err : error) : bool :=
  match err with
  | Status ErrEmpty => true
  | _ => false
  end.

(** A Go result pair [(v, err)]: [Err e] stands for [(nil, e)]. *)
Inductive result (A : Type) : Type :=
| Ok (a : A)
| Err (e : error).
Arguments Err {A}.

(* ===================================================================== *)
(** ** The connection

    [Conn] is external to image.go, which uses only [ReadFrame] and
    [Cancel].  The state records what the device will answer to each
    successive [ReadFrame] call, how many calls were made, and the calls
    made so far, oldest first. *)

Inductive Event : Type :=
| EvReadFrame
| EvCancel.

Record Conn : Type := mkConn {
  feed : nat -> result Frame;
  nread : nat;
  log : list Event
}.

Definition ReadFrame (c : Conn) : result Frame * Conn :=
  (feed c (nread c), mkConn (feed c) (S (nread c)) (log c ++ [EvReadFrame])).

Definition Cancel (c : Conn) : Conn :=
  mkConn (feed c) (nread c) (log c ++ [EvCancel]).

(* ===================================================================== *)
(** ** The frame assembler *)

(** The [switch f.Format] of [loadImage]: the slot assignment, or [None]
    in the [default] case. *)
Definition storeFrame (f : Frame) (m : Image) : option Image :=
  if (Format f =? FrameGray) || (Format f =? FrameRgb) || (Format f =? FrameRed)
  then Some (mkImage (Some f) (fs1 m) (fs2 m))
  else if Format f =? FrameGreen then Some (mkImage (fs0 m) (Some f) (fs2 m))
  else if Format f =? FrameBlue then Some (mkImage (fs0 m) (fs1 m) (Some f))
  else None.

(** The [for] loop of [loadImage]; [fuel] bounds the number of
    iterations and [None] means the bound was reached. *)
Fixpoint loadImage_loop (fuel : nat) (c : Conn) (m : Image)
  : option (result Image * Conn) :=
  match fuel with
  | O => None
  | S fuel' =>
    let '(r, c1) := ReadFrame c in
    match r with
    | Err err => Some (Err err, c1)
    | Ok f =>
      match storeFrame f m with
      | None => Some (Err (UnknownFrameType (Format f)), c1)
      | Some m' =>
        if IsLast f then Some (Ok m', c1) else loadImage_loop fuel' c1 m'
      end
    end
  end.

Definition loadImage (fuel : nat) (c : Conn) : option (result Image * Conn) :=
  loadImage_loop fuel c emptyImage.

(* ===================================================================== *)
(** ** Acquisition strategies

    [defer c.Cancel()] runs [Cancel] when the function returns. *)

Definition ReadImage (fuel : nat) (c : Conn) : option (result Image * Conn) :=
  match loadImage fuel c with
  | None => None
  | Some (r, c1) => Some (r, Cancel c1)
  end.

Fixpoint ReadAvailableImages_loop (fuel : nat) (c : Conn) (images : list Image)
  : option (result (list Image) * Conn) :=
  match fuel with
  | O => None
  | S fuel' =>
    match loadImage fuel c with
    | None => None
    | Some (Err err, c1) =>
      if isErrEmpty err && (0 <? Z.of_nat (length images))
      then Some (Ok images, c1)
      else Some (Err err, c1)
    | Some (Ok m, c1) => ReadAvailableImages_loop fuel' c1 (images ++ [m])
    end
  end.

Definition ReadAvailableImages (fuel : nat) (c : Conn)
  : option (result (list Image) * Conn) :=
  match ReadAvailableImages_loop fuel c [] with
  | None => None
  | Some (r, c1) => Some (r, Cancel c1)
  end.

Section Handler.

(** The page handler [process func(m *Image) error], a closure with
    private state of type [H]; [None] is the nil error. *)
Variable H : Type.
Variable process : Image -> H -> option error * H.

Fixpoint ContinuousRead_loop (fuel : nat) (c : Conn) (m : Image) (h : H)
  : option (option error * Conn * H) :=
  match fuel with
  | O => None
  | S fuel' =>
    match process m h with
    | (Some err, h1) => Some (Some err, c, h1)
    | (None, h1) =>
      match loadImage fuel c with
      | None => None
      | Some (Err err, c1) =>
        if isErrEmpty err then Some (None, c1, h1) else Some (Some err, c1, h1)
      | Some (Ok m', c1) => ContinuousRead_loop fuel' c1 m' h1
      end
    end
  end.

Definition ContinuousRead (fuel : nat) (c : Conn) (h : H)
  : option (option error * Conn * H) :=
  match loadImage fuel c with
  | None => None
  | Some (Err err, c1) => Some (Some err, Cancel c1, h)
  | Some (Ok m, c1) =>
    match ContinuousRead_loop fuel c1 m h with
    | None => None
    | Some (r, c2, h2) => Some (r, Cancel c2, h2)
    end
  end.

(** What the handler does when handed the pages [ms] one after the
    other, stopping at its first failure. *)
Fixpoint handAll (ms : list Image) (h : H) : option error * H :=
  match ms with
  | [] => (None, h)
  | m :: ms' =>
    match process m h with
    | (Some err, h1) => (Some err, h1)
    | (None, h1) => handAll ms' h1
    end
  end.

End Handler.

(* ===================================================================== *)
(** ** Vocabulary of the statements *)

Definition zeroColor : Color := RGBA 0 0 0 0.

(** (x, y) lies in [0, Width) x [0, Height) of the frame. *)
Definition inBounds (f : Frame) (x y : Z) : Prop :=
  0 <= x < Width f /\ 0 <= y < Height f.

(** The five recognized format values. *)
Definition recognized (format : Z) : Prop :=
  format = FrameGray \/ format = FrameRgb \/ format = FrameRed \/
  format = FrameGreen \/ format = FrameBlue.

(** The connection after [n] further [ReadFrame] calls. *)
Definition advance (c : Conn) (n : nat) : Conn :=
  mkConn (feed c) (n + nread c) (log c ++ repeat EvReadFrame n).

(** The next [length fs] calls of [ReadFrame] succeed and deliver the
    frames [fs], in this order. *)
Definition reads (c : Conn) (fs : list Frame) : Prop :=
  forall j f, nth_error fs j = Some f -> feed c (j + nread c)%nat = Ok f.

(** A frame that [loadImage] stores and after which it goes on reading:
    its format is recognized and it is not marked as the last one. *)
Definition inner (f : Frame) : Prop :=
  IsLast f = false /\ recognized (Format f).

(** The [k]-th [ReadFrame] call from now fails, or delivers a frame that
    is marked as the last one. *)
Definition stops (c : Conn) (k : nat) : Prop :=
  match feed c (k + nread c)%nat with
  | Err _ => True
  | Ok f => IsLast f = true
  end.

(** Slot contents after the frames [fs] were stored, in order, into [m]. *)
Definition assemble (fs : list Frame) (m : Image) : Image :=
  fold_left (fun m f => match storeFrame f m with
                        | Some m' => m'
                        | None => m
                        end) fs m.

(** One assembler call on [c] returns [r] and leaves the connection in
    state [c']. *)
Definition loads (c : Conn) (r : result Image) (c' : Conn) : Prop :=
  exists fuel, loadImage fuel c = Some (r, c').

(** Successive assembler calls, starting on [c], succeed with the images
    [ms] in this order and leave the connection in state [c']. *)
Inductive pages : Conn -> list Image -> Conn -> Prop :=
| pages_nil : forall c, pages c [] c
| pages_cons : forall c m c1 ms c2,
    loads c (Ok m) c1 -> pages c1 ms c2 -> pages c (m :: ms) c2.

(** The strategy called [Cancel] exactly once, as its last action on the
    connection: what it added to the log is some [ReadFrame] calls
    followed by a single [Cancel]. *)
Definition cancelledOnExit (c c' : Conn) : Prop :=
  exists k, log c' = log c ++ repeat EvReadFrame k ++ [EvCancel].

(** A handler that records the pages it is handed and never fails. *)
Definition recorder (m : Image) (h : list Image) : option error * list Image :=
  (None, h ++ [m]).

(** A handler that records the pages it is handed and fails on the
    [k]-th one (counting from 1). *)
Definition failingAt (k : nat) (m : Image) (h : list Image)
  : option error * list Image :=
  if Nat.eqb (S (length h)) k
  then (Some (OtherError "disk full"), h ++ [m])
  else (None, h ++ [m]).

(* ===================================================================== *)
(** ** Sample data *)

Definition ramp (x y ch : Z) : Z := 10 * y + 3 * x + ch.

Definition grayPage (depth : Z) : Frame := mkFrame FrameGray 4 3 depth true ramp.
Definition bitPage : Frame := mkFrame FrameGray 4 3 1 true (fun x _ _ => x mod 2).
Definition rgbPage : Frame := mkFrame FrameRgb 4 3 8 true ramp.
Definition redPlane (depth : Z) (last : bool) : Frame :=
  mkFrame FrameRed 4 3 depth last (fun x y _ => ramp x y 0).
Definition greenPlane (last : bool) : Frame :=
  mkFrame FrameGreen 4 3 8 last (fun x y _ => ramp x y 1).
Definition bluePlane (last : bool) : Frame :=
  mkFrame FrameBlue 4 3 8 last (fun x y _ => ramp x y 2).
Definition oddFrame (last : bool) : Frame := mkFrame 99 4 3 8 last ramp.

Definition grayImage : Image := mkImage (Some (grayPage 8)) None None.
Definition rgbImage : Image := mkImage (Some rgbPage) None None.
Definition planarImage : Image :=
  mkImage (Some (redPlane 8 false)) (Some (greenPlane false)) (Some (bluePlane true)).
Definition redOnlyImage : Image := mkImage (Some (redPlane 4 true)) None None.
Definition greenOnlyImage : Image := mkImage None (Some (greenPlane true)) None.

(** A device that answers the given results, then reports an empty tray. *)
Definition device (rs : list (result Frame)) : Conn :=
  mkConn (fun n => nth n rs (Err (Status ErrEmpty))) 0 [].

(** Two single-frame pages, then an empty tray. *)
Definition feeder2 : Conn := device [Ok (grayPage 8); Ok rgbPage].
(** A tray that is empty from the start. *)
Definition emptyTray : Conn := device [].
(** One page, then a jam. *)
Definition jammedAfter1 : Conn := device [Ok (grayPage 8); Err (Status ErrJammed)].
(** A three-pass page. *)
Definition threePass : Conn :=
  device [Ok (redPlane 8 false); Ok (greenPlane false); Ok (bluePlane true)].
(** Two planes of a three-pass page, then a jam. *)
Definition jammedMidPage : Conn :=
  device [Ok (redPlane 8 false); Ok (greenPlane false); Err (Status ErrJammed)].
(** A red plane, then a frame of unknown format, then more frames. *)
Definition oddSecond : Conn :=
  device [Ok (redPlane 8 false); Ok (oddFrame false); Ok (bluePlane true)].
(** A single frame of unknown format that is marked as the last one. *)
Definition oddLast : Conn := device [Ok (oddFrame true)].
(** A page made of a single red plane at depth 4. *)
Definition redOnly : Conn := device [Ok (redPlane 4 true)].
(** A page made of a single green plane. *)
Definition greenOnly : Conn := device [Ok (greenPlane true)].

(* ===================================================================== *)
(** ** Further vocabulary *)

(** [image.Point.In]: the point (x, y) lies in the rectangle. *)
Definition inRect (r : Rectangle) (x y : Z) : Prop :=
  MinX r <= x < MaxX r /\ MinY r <= y < MaxY r.

(** The colour model to which a colour value of this Go type belongs. *)
Definition modelOf (col : Color) : Model :=
  match col with
  | RGBA _ _ _ _ => RGBAModel
  | RGBA64 _ _ _ _ => RGBA64Model
  | Gray _ => GrayModel
  | Gray16 _ => Gray16Model
  end.

(** The depths for which [At] has a case. *)
Definition supportedDepth (d : Z) : Prop := d = 1 \/ d = 8 \/ d = 16.

(** The slots that [At] reads besides the primary one are filled: none
    for a Gray or Rgb primary frame, slots 1 and 2 otherwise. *)
Definition planesPresent (m : Image) (f0 : Frame) : Prop :=
  Format f0 = FrameGray \/ Format f0 = FrameRgb \/
  (fs1 m <> None /\ fs2 m <> None).

(** Every filled slot holds a frame of a format that [loadImage] stores
    in that slot. *)
Definition slotsWellFormed (m : Image) : Prop :=
  (forall f, fs0 m = Some f ->
             Format f = FrameGray \/ Format f = FrameRgb \/ Format f = FrameRed) /\
  (forall f, fs1 m = Some f -> Format f = FrameGreen) /\
  (forall f, fs2 m = Some f -> Format f = FrameBlue).

(** The frame sits in one of the three slots. *)
Definition holds (m : Image) (f : Frame) : Prop :=
  fs0 m = Some f \/ fs1 m = Some f \/ fs2 m = Some f.

(** The error part of a Go result pair. *)
Definition errorOf {A} (r : result A) : option error :=
  match r with
  | Ok _ => None
  | Err e => Some e
  end.

(* ===================================================================== *)
(** ** The checks of the package's tests

    [readImage], [checkGray] and [checkColor] are the helpers with which
    the tests of the package read an image and compare it with the test
    picture of the device.  A failed test ([t.Fatal], [t.Fatalf]) ends
    the helper. *)

(** [==] on two [color.Color] values: the same Go type and the same
    fields. *)
Definition Color_eqb (c1 c2 : Color) : bool :=
  match c1, c2 with
  | RGBA r g b a, RGBA r' g' b' a' => (r =? r') && (g =? g') && (b =? b') && (a =? a')
  | RGBA64 r g b a, RGBA64 r' g' b' a' =>
      (r =? r') && (g =? g') && (b =? b') && (a =? a')
  | Gray v, Gray v' => v =? v'
  | Gray16 v, Gray16 v' => v =? v'
  | _, _ => false
  end.

(** [==] on two [color.Model] values. *)
Definition Model_eqb (m1 m2 : Model) : bool :=
  match m1, m2 with
  | GrayModel, GrayModel => true
  | Gray16Model, Gray16Model => true
  | RGBAModel, RGBAModel => true
  | RGBA64Model, RGBA64Model => true
  | _, _ => false
  end.

(** The condition on which [readImage] reports bad bounds. *)
Definition badBounds (b : Rectangle) : bool :=
  negb (MinX b =? 0) || negb (MinY b =? 0) ||
  (MaxX b <=? MinX b) || (MaxY b <=? MinY b).

(** [readImage]: the image read, or [None] when the test was failed,
    because [ReadImage] returned an error or the bounds are bad. *)
Definition readImage (fuel : nat) (c : Conn)
  : option (outcome (option Image) * Conn) :=
  match ReadImage fuel c with
  | None => None
  | Some (Err _, c1) => Some (Returns None, c1)
  | Some (Ok m, c1) =>
    Some ((b <- Bounds m ;;
           if badBounds b then Returns None else Returns (Some m)), c1)
  end.

(** The pixel [checkGray] expects at (x, y); [/] and [%] on [int]
    truncate toward zero. *)
Definition expectedGray (x y : Z) : Color :=
  let xPos := Z.quot x 5 in
  let yPos := Z.quot y 5 in
  if (Z.rem x 5 =? 0) || (Z.rem y 5 =? 0) then Gray 0x55
  else if Z.rem yPos 2 =? 0 then Gray (uint8 (Z.rem xPos 0xFF))
  else if Z.rem yPos 2 =? 1 then Gray (uint8 (0xFF - uint8 (Z.rem xPos 0xFF)))
  else Gray 0.

(** The pixel [checkColor] expects at (x, y). *)
Definition expectedColor (x y : Z) : Color :=
  let xPos := Z.quot x 5 in
  let yPos := Z.quot y 5 in
  if (Z.rem x 5 =? 0) || (Z.rem y 5 =? 0) then RGBA 0x55 0x55 0x55 0xFF
  else
    let s := if Z.rem yPos 2 =? 0
             then uint8 (Z.rem xPos 0xFF)
             else uint8 (0xFF - Z.rem xPos 0xFF) in
    let k := Z.rem yPos 6 in
    if (k =? 0) || (k =? 1) then RGBA s 0 0 0xFF
    else if (k =? 2) || (k =? 3) then RGBA 0 s 0 0xFF
    else if (k =? 4) || (k =? 5) then RGBA 0 0 s 0xFF
    else RGBA 0 0 0 0.

(** The values 0, 1, ..., n-1 that a loop [for i := 0; i < n; i++]
    runs through. *)
Definition upto (n : Z) : list Z := map Z.of_nat (seq 0 (Z.to_nat n)).

(** The inner loop over y, and the outer loop over x, of [checkGray]
    and [checkColor]: [false] when a pixel differs from the expected
    one, which ends the loops. *)
Fixpoint checkColumn (expected : Z -> Z -> Color) (m : Image) (x : Z)
         (ys : list Z) : outcome bool :=
  match ys with
  | [] => Returns true
  | y :: ys' =>
    col <- At m x y ;;
    if Color_eqb col (expected x y)
    then checkColumn expected m x ys'
    else Returns false
  end.

Fixpoint checkRows (expected : Z -> Z -> Color) (m : Image)
         (xs ys : list Z) : outcome bool :=
  match xs with
  | [] => Returns true
  | x :: xs' =>
    ok <- checkColumn expected m x ys ;;
    if ok then checkRows expected m xs' ys else Returns false
  end.

(** [checkGray]: [true] when the test goes on, [false] when it was
    failed. *)
Definition checkGray (m : Image) : outcome bool :=
  cm <- ColorModel m ;;
  if negb (Model_eqb cm GrayModel) then Returns false else
  b <- Bounds m ;;
  checkRows expectedGray m (upto (MaxX b)) (upto (MaxY b)).

Definition checkColor (m : Image) : outcome bool :=
  cm <- ColorModel m ;;
  if negb (Model_eqb cm RGBAModel) then Returns false else
  b <- Bounds m ;;
  checkRows expectedColor m (upto (MaxX b)) (upto (MaxY b)).

(** Frames that carry the test picture: the gray picture, the colour
    picture interleaved, and one plane [k] of the colour picture. *)
Definition grayValue (col : Color) : Z :=
  match col with
  | Gray v => v
  | Gray16 v => v
  | _ => 0
  end.

Definition channel (k : Z) (col : Color) : Z :=
  match col with
  | RGBA r g b _ => if k =? 0 then r else if k =? 1 then g else b
  | RGBA64 r g b _ => if k =? 0 then r else if k =? 1 then g else b
  | _ => 0
  end.

Definition testGray (w h : Z) : Frame :=
  mkFrame FrameGray w h 8 true (fun x y _ => grayValue (expectedGray x y)).

Definition testRgb (w h : Z) : Frame :=
  mkFrame FrameRgb w h 8 true (fun x y ch => channel ch (expectedColor x y)).

Definition testPlane (format k : Z) (last : bool) (w h : Z) : Frame :=
  mkFrame format w h 8 last (fun x y _ => channel k (expectedColor x y)).

Unset Implicit Arguments.

(* ===================================================================== *)
(** * Pixel decoder *)

Lemma uint8_mul16 s : uint8 (mul16 0xFF s) = (255 * s) mod 256.
Proof.
  unfold uint8, mul16, uint16.
  rewrite Z.mod_mod_divide; [reflexivity|].
  exists (2 ^ 8). reflexivity.
Qed.

Lemma sample_range f x y ch : 0 <= sample f x y ch < 2 ^ 16.
Proof. unfold sample, uint16. apply Z.mod_pos_bound. lia. Qed.

(** Once the bounds test is passed, [At] is decided by the format and the
    depth of the primary frame. *)
Lemma At_inBounds m f x y :
  fs0 m = Some f -> inBounds f x y ->
  At m x y =
    if Format f =? FrameGray then
      if Depth f =? 1 then Returns (Gray (uint8 (mul16 0xFF (sample f x y 0))))
      else if Depth f =? 8 then Returns (Gray (uint8 (sample f x y 0)))
      else if Depth f =? 16 then Returns (Gray16 (sample f x y 0))
      else Returns zeroColor
    else
      rgb <- (if Format f =? FrameRgb then
                Returns (sample f x y 0, sample f x y 1, sample f x y 2)
              else
                g <- Frame_At (fs1 m) x y 0 ;;
                b <- Frame_At (fs2 m) x y 0 ;;
                Returns (sample f x y 0, g, b)) ;;
      let '(r, g, b) := rgb in Returns (packRGB (Depth f) r g b).
Proof.
  intros H0 [Hx Hy]. unfold At. rewrite H0. cbn [deref obind Frame_At].
  destruct (Z.ltb_spec x 0); [lia|].
  destruct (Z.geb_spec x (Width f)); [lia|].
  destruct (Z.ltb_spec y 0); [lia|].
  destruct (Z.geb_spec y (Height f)); [lia|].
  destruct (Format f =? FrameGray).
  - destruct (Depth f =? 1); [reflexivity|].
    destruct (Depth f =? 8); [reflexivity|].
    destruct (Depth f =? 16); reflexivity.
  - destruct (Format f =? FrameRgb); reflexivity.
Qed.

Lemma At_outside m f x y :
  fs0 m = Some f -> ~ inBounds f x y -> At m x y = Returns zeroColor.
Proof.
  intros H0 Hout. unfold At, inBounds in *. rewrite H0. cbn [deref obind].
  destruct (Z.ltb_spec x 0); [reflexivity|].
  destruct (Z.geb_spec x (Width f)); [reflexivity|].
  destruct (Z.ltb_spec y 0); [reflexivity|].
  destruct (Z.geb_spec y (Height f)); [reflexivity|].
  lia.
Qed.

Lemma packRGB_other_depth d r g b :
  d <> 1 -> d <> 8 -> d <> 16 -> packRGB d r g b = zeroColor.
Proof.
  intros H1 H8 H16. unfold packRGB.
  destruct (Z.eqb_spec d 1); [lia|].
  destruct (Z.eqb_spec d 8); [lia|].
  destruct (Z.eqb_spec d 16); [lia|reflexivity].
Qed.

(** C5. [ColorModel] is decided by the format and the depth of the
    primary frame alone: Gray gives the 8-bit grayscale model unless the
    depth is 16, where it gives the 16-bit one; any other format gives the
    8-bit RGBA model unless the depth is 16, where it gives the 16-bit
    one.  Two images whose primary frames agree on format and depth have
    the same model. *)
Theorem ColorModel_table m f :
  fs0 m = Some f ->
  (Format f = FrameGray -> Depth f <> 16 -> ColorModel m = Returns GrayModel) /\
  (Format f = FrameGray -> Depth f = 16 -> ColorModel m = Returns Gray16Model) /\
  (Format f <> FrameGray -> Depth f <> 16 -> ColorModel m = Returns RGBAModel) /\
  (Format f <> FrameGray -> Depth f = 16 -> ColorModel m = Returns RGBA64Model) /\
  (forall m' f', fs0 m' = Some f' -> Format f' = Format f -> Depth f' = Depth f ->
                 ColorModel m' = ColorModel m).
Proof.
  intros H0. unfold ColorModel. rewrite H0. cbn [deref obind].
  repeat split.
  - intros HF HD. destruct (Z.eqb_spec (Depth f) 16); [lia|].
    destruct (Z.eqb_spec (Format f) FrameGray); [reflexivity|contradiction].
  - intros HF HD. destruct (Z.eqb_spec (Depth f) 16); [|lia].
    destruct (Z.eqb_spec (Format f) FrameGray); [reflexivity|contradiction].
  - intros HF HD. destruct (Z.eqb_spec (Depth f) 16); [lia|].
    destruct (Z.eqb_spec (Format f) FrameGray); [contradiction|reflexivity].
  - intros HF HD. destruct (Z.eqb_spec (Depth f) 16); [|lia].
    destruct (Z.eqb_spec (Format f) FrameGray); [contradiction|reflexivity].
  - intros m' f' H0' HF HD. rewrite H0'. cbn [deref obind].
    rewrite HF, HD. reflexivity.
Qed.

Lemma ColorModel_table_witness :
  ColorModel (mkImage (Some (grayPage 8)) None None) = Returns GrayModel /\
  ColorModel (mkImage (Some (grayPage 16)) None None) = Returns Gray16Model /\
  ColorModel planarImage = Returns RGBAModel /\
  ColorModel (mkImage (Some (redPlane 16 true)) None None) = Returns RGBA64Model /\
  ColorModel (mkImage (Some rgbPage) (Some (greenPlane true)) None) = ColorModel rgbImage.
Proof.
  destruct (ColorModel_table (mkImage (Some (grayPage 8)) None None) _ eq_refl)
    as (G8 & _).
  destruct (ColorModel_table (mkImage (Some (grayPage 16)) None None) _ eq_refl)
    as (_ & G16 & _).
  destruct (ColorModel_table planarImage _ eq_refl) as (_ & _ & C8 & _).
  destruct (ColorModel_table (mkImage (Some (redPlane 16 true)) None None) _ eq_refl)
    as (_ & _ & _ & C16 & _).
  destruct (ColorModel_table rgbImage _ eq_refl) as (_ & _ & _ & _ & Same).
  split; [apply G8; [reflexivity | discriminate]|].
  split; [apply G16; reflexivity|].
  split; [apply C8; discriminate|].
  split; [apply C16; [discriminate | reflexivity]|].
  apply (Same _ rgbPage); reflexivity.
Defined.

(** C6. On a grayscale image, at an in-bounds coordinate: at depth 1
    [At] is the gray value obtained from the raw sample times 0xFF (for a
    sample that is 0 or 1 this is 0 or 255); at depth 8 it is the raw
    sample as an 8-bit gray value; at depth 16 it is the raw sample as a
    16-bit gray value. *)
Theorem At_gray m f x y :
  fs0 m = Some f -> Format f = FrameGray -> inBounds f x y ->
  (Depth f = 1 ->
     At m x y = Returns (Gray (uint8 (mul16 0xFF (sample f x y 0)))) /\
     (sample f x y 0 <= 1 -> At m x y = Returns (Gray (0xFF * sample f x y 0))) /\
     (sample f x y 0 = 0 -> At m x y = Returns (Gray 0)) /\
     (sample f x y 0 = 1 -> At m x y = Returns (Gray 255))) /\
  (Depth f = 8 ->
     At m x y = Returns (Gray (uint8 (sample f x y 0))) /\
     (sample f x y 0 < 2 ^ 8 -> At m x y = Returns (Gray (sample f x y 0)))) /\
  (Depth f = 16 -> At m x y = Returns (Gray16 (sample f x y 0))).
Proof.
  intros H0 HF HB. rewrite (At_inBounds m f x y H0 HB), HF. cbn [Z.eqb FrameGray].
  pose proof (sample_range f x y 0) as Hs.
  split; [|split]; intros HD; rewrite HD; cbn [Z.eqb Pos.eqb].
  - split; [reflexivity|].
    rewrite uint8_mul16.
    split; [|split]; intros Hv.
    + assert (sample f x y 0 = 0 \/ sample f x y 0 = 1) as [E|E] by lia;
        rewrite E; reflexivity.
    + rewrite Hv. reflexivity.
    + rewrite Hv. reflexivity.
  - split; [reflexivity|]. intros Hv.
    unfold uint8. rewrite Z.mod_small by lia. reflexivity.
  - reflexivity.
Qed.

Lemma At_gray_witness :
  At (mkImage (Some bitPage) None None) 3 1 = Returns (Gray 255) /\
  At (mkImage (Some bitPage) None None) 2 1 = Returns (Gray 0) /\
  At (mkImage (Some (grayPage 8)) None None) 3 2 = Returns (Gray 29) /\
  At (mkImage (Some (grayPage 16)) None None) 3 2 = Returns (Gray16 29).
Proof.
  assert (B : forall f, Width f = 4 -> Height f = 3 ->
                        inBounds f 3 1 /\ inBounds f 2 1 /\ inBounds f 3 2).
  { intros f W Ht. unfold inBounds. rewrite W, Ht. lia. }
  destruct (B bitPage eq_refl eq_refl) as (B31 & B21 & _).
  destruct (B (grayPage 8) eq_refl eq_refl) as (_ & _ & B8).
  destruct (B (grayPage 16) eq_refl eq_refl) as (_ & _ & B16).
  destruct (At_gray (mkImage (Some bitPage) None None) _ 3 1 eq_refl eq_refl B31)
    as (D1 & _).
  destruct (At_gray (mkImage (Some bitPage) None None) _ 2 1 eq_refl eq_refl B21)
    as (D1' & _).
  destruct (At_gray (mkImage (Some (grayPage 8)) None None) _ 3 2 eq_refl eq_refl B8)
    as (_ & D8 & _).
  destruct (At_gray (mkImage (Some (grayPage 16)) None None) _ 3 2 eq_refl eq_refl B16)
    as (_ & _ & D16).
  split; [apply (D1 eq_refl); reflexivity|].
  split; [apply (D1' eq_refl); reflexivity|].
  split; [apply (D8 eq_refl); reflexivity|].
  apply (D16 eq_refl).
Defined.

(** The colour path on a planar image: any primary format other than
    Gray and Rgb takes the non-interleaved branch. *)
Lemma At_planar m f0 f1 f2 x y :
  fs0 m = Some f0 -> fs1 m = Some f1 -> fs2 m = Some f2 ->
  Format f0 <> FrameGray -> Format f0 <> FrameRgb -> inBounds f0 x y ->
  At m x y =
    Returns (packRGB (Depth f0) (sample f0 x y 0) (sample f1 x y 0) (sample f2 x y 0)).
Proof.
  intros H0 H1 H2 HG HR HB. rewrite (At_inBounds m f0 x y H0 HB), H1, H2.
  destruct (Z.eqb_spec (Format f0) FrameGray); [contradiction|].
  destruct (Z.eqb_spec (Format f0) FrameRgb); [contradiction|].
  reflexivity.
Qed.

Lemma At_interleaved m f x y :
  fs0 m = Some f -> Format f = FrameRgb -> inBounds f x y ->
  At m x y =
    Returns (packRGB (Depth f) (sample f x y 0) (sample f x y 1) (sample f x y 2)).
Proof.
  intros H0 HF HB. rewrite (At_inBounds m f x y H0 HB), HF. reflexivity.
Qed.

(** C3, as it holds.  At an in-bounds coordinate, an image whose primary
    frame is Rgb takes red, green and blue from the primary frame at
    channel indices 0, 1, 2; an image whose primary frame is Red takes
    them from slots 0, 1, 2, each at channel index 0 of its own frame.
    Hence an interleaved image and a three-plane image of the same depth
    whose samples agree channel by channel give the same [At] at every
    coordinate that is in bounds for both, and the same colour model. *)
Theorem At_color_layouts :
  (forall m f x y,
      fs0 m = Some f -> Format f = FrameRgb -> inBounds f x y ->
      At m x y =
        Returns (packRGB (Depth f)
                   (sample f x y 0) (sample f x y 1) (sample f x y 2))) /\
  (forall m fr fg fb x y,
      fs0 m = Some fr -> fs1 m = Some fg -> fs2 m = Some fb ->
      Format fr = FrameRed -> inBounds fr x y ->
      At m x y =
        Returns (packRGB (Depth fr)
                   (sample fr x y 0) (sample fg x y 0) (sample fb x y 0))) /\
  (forall mi fi mp fr fg fb,
      fs0 mi = Some fi -> Format fi = FrameRgb ->
      fs0 mp = Some fr -> fs1 mp = Some fg -> fs2 mp = Some fb ->
      Format fr = FrameRed ->
      Depth fi = Depth fr ->
      (forall x y, inBounds fi x y -> inBounds fr x y ->
                   sample fi x y 0 = sample fr x y 0 /\
                   sample fi x y 1 = sample fg x y 0 /\
                   sample fi x y 2 = sample fb x y 0) ->
      (forall x y, inBounds fi x y -> inBounds fr x y -> At mi x y = At mp x y) /\
      ColorModel mi = ColorModel mp).
Proof.
  split; [|split].
  - intros. now apply At_interleaved.
  - intros m fr fg fb x y H0 H1 H2 HF HB.
    apply At_planar; trivial; rewrite HF; discriminate.
  - intros mi fi mp fr fg fb Hi HFi H0 H1 H2 HFr HD Hsame. split.
    + intros x y Bi Br.
      rewrite (At_interleaved mi fi x y Hi HFi Bi).
      rewrite (At_planar mp fr fg fb x y H0 H1 H2); trivial;
        try (rewrite HFr; discriminate).
      destruct (Hsame x y Bi Br) as (Er & Eg & Eb).
      rewrite Er, Eg, Eb, HD. reflexivity.
    + unfold ColorModel. rewrite Hi, H0. cbn [deref obind].
      rewrite HD, HFi, HFr. reflexivity.
Qed.

Lemma At_color_layouts_witness :
  At rgbImage 3 2 = Returns (RGBA 29 30 31 255) /\
  At planarImage 3 2 = Returns (RGBA 29 30 31 255) /\
  (forall x y, inBounds rgbPage x y -> inBounds (redPlane 8 false) x y ->
               At rgbImage x y = At planarImage x y) /\
  ColorModel rgbImage = ColorModel planarImage.
Proof.
  assert (B : inBounds rgbPage 3 2) by (unfold inBounds; cbn; lia).
  assert (B' : inBounds (redPlane 8 false) 3 2) by (unfold inBounds; cbn; lia).
  destruct At_color_layouts as (Hi & Hp & Heq).
  split; [exact (Hi rgbImage rgbPage 3 2 eq_refl eq_refl B)|].
  split; [exact (Hp planarImage _ _ _ 3 2 eq_refl eq_refl eq_refl eq_refl B')|].
  apply (Heq rgbImage rgbPage planarImage _ _ _
               eq_refl eq_refl eq_refl eq_refl eq_refl eq_refl eq_refl).
  intros x y _ _. repeat split; reflexivity.
Defined.

(** C3 as stated fails when the two images differ in depth: the
    interleaved image of depth 8 and the three-plane image whose primary
    frame has depth 16 have the same samples, channel by channel, at
    every coordinate, and (3, 2) is in bounds for both; yet [At] returns
    an 8-bit colour for the one and a 16-bit colour for the other, and
    the colour models differ. *)
Lemma At_color_layouts_counterexample :
  Format rgbPage = FrameRgb /\ Format (redPlane 16 false) = FrameRed /\
  (forall x y,
     sample rgbPage x y 0 = sample (redPlane 16 false) x y 0 /\
     sample rgbPage x y 1 = sample (greenPlane false) x y 0 /\
     sample rgbPage x y 2 = sample (bluePlane true) x y 0) /\
  inBounds rgbPage 3 2 /\ inBounds (redPlane 16 false) 3 2 /\
  At rgbImage 3 2 = Returns (RGBA 29 30 31 255) /\
  At (mkImage (Some (redPlane 16 false)) (Some (greenPlane false))
              (Some (bluePlane true))) 3 2 = Returns (RGBA64 29 30 31 65535) /\
  At rgbImage 3 2 <>
    At (mkImage (Some (redPlane 16 false)) (Some (greenPlane false))
                (Some (bluePlane true))) 3 2 /\
  ColorModel rgbImage = Returns RGBAModel /\
  ColorModel (mkImage (Some (redPlane 16 false)) (Some (greenPlane false))
                      (Some (bluePlane true))) = Returns RGBA64Model /\
  ColorModel rgbImage <>
    ColorModel (mkImage (Some (redPlane 16 false)) (Some (greenPlane false))
                        (Some (bluePlane true))).
Proof.
  split; [reflexivity|]. split; [reflexivity|].
  split; [intros x y; repeat split|].
  split; [unfold inBounds; cbn; lia|].
  split; [unfold inBounds; cbn; lia|].
  split; [reflexivity|]. split; [reflexivity|].
  split; [discriminate|].
  split; [reflexivity|]. split; [reflexivity|].
  discriminate.
Qed.

(* ===================================================================== *)
(** * The frame assembler *)

Lemma recognized_dec format : {recognized format} + {~ recognized format}.
Proof.
  unfold recognized.
  destruct (Z.eq_dec format FrameGray); [left; tauto|].
  destruct (Z.eq_dec format FrameRgb); [left; tauto|].
  destruct (Z.eq_dec format FrameRed); [left; tauto|].
  destruct (Z.eq_dec format FrameGreen); [left; tauto|].
  destruct (Z.eq_dec format FrameBlue); [left; tauto|].
  right; tauto.
Defined.

Lemma storeFrame_unknown f m :
  ~ recognized (Format f) -> storeFrame f m = None.
Proof.
  unfold recognized, storeFrame. intros HU.
  destruct (Z.eqb_spec (Format f) FrameGray); [tauto|].
  destruct (Z.eqb_spec (Format f) FrameRgb); [tauto|].
  destruct (Z.eqb_spec (Format f) FrameRed); [tauto|].
  destruct (Z.eqb_spec (Format f) FrameGreen); [tauto|].
  destruct (Z.eqb_spec (Format f) FrameBlue); [tauto|].
  reflexivity.
Qed.

Lemma storeFrame_recognized f m :
  recognized (Format f) -> exists m', storeFrame f m = Some m'.
Proof.
  unfold recognized, storeFrame. intros HR.
  destruct (Z.eqb_spec (Format f) FrameGray); [cbn; eauto|].
  destruct (Z.eqb_spec (Format f) FrameRgb); [cbn; eauto|].
  destruct (Z.eqb_spec (Format f) FrameRed); [cbn; eauto|].
  destruct (Z.eqb_spec (Format f) FrameGreen); [cbn; eauto|].
  destruct (Z.eqb_spec (Format f) FrameBlue); [cbn; eauto|].
  exfalso; tauto.
Qed.

Lemma assemble_cons f fs m m' :
  storeFrame f m = Some m' -> assemble (f :: fs) m = assemble fs m'.
Proof. intros E. unfold assemble. cbn. rewrite E. reflexivity. Qed.

Lemma assemble_snoc fs f m m' :
  storeFrame f (assemble fs m) = Some m' -> assemble (fs ++ [f]) m = m'.
Proof.
  intros E. unfold assemble in *. rewrite fold_left_app. cbn. rewrite E.
  reflexivity.
Qed.

(** The planes of a three-pass page may arrive in any order. *)
Lemma assemble_three_pass r g b :
  Format r = FrameRed -> Format g = FrameGreen -> Format b = FrameBlue ->
  let m := mkImage (Some r) (Some g) (Some b) in
  assemble [r; g; b] emptyImage = m /\ assemble [r; b; g] emptyImage = m /\
  assemble [g; b; r] emptyImage = m /\ assemble [g; r; b] emptyImage = m /\
  assemble [b; r; g] emptyImage = m /\ assemble [b; g; r] emptyImage = m.
Proof.
  intros Hr Hg Hb. unfold assemble, storeFrame. cbn [fold_left].
  rewrite Hr, Hg, Hb. cbn. repeat split.
Qed.

(** A later frame for a slot replaces an earlier one. *)
Lemma assemble_overwrites f f' m :
  Format f = Format f' -> recognized (Format f) ->
  assemble [f; f'] m = assemble [f'] m.
Proof.
  intros E R. unfold assemble, storeFrame. cbn [fold_left]. rewrite E.
  destruct ((Format f' =? FrameGray) || (Format f' =? FrameRgb) ||
            (Format f' =? FrameRed)); [reflexivity|].
  destruct (Format f' =? FrameGreen); [reflexivity|].
  destruct (Format f' =? FrameBlue); reflexivity.
Qed.

Lemma advance_0 c : advance c 0 = c.
Proof. destruct c. unfold advance. cbn. rewrite app_nil_r. reflexivity. Qed.

Lemma advance_advance c a b : advance (advance c a) b = advance c (a + b).
Proof.
  unfold advance. cbn. f_equal; [lia|].
  rewrite repeat_app, app_assoc. reflexivity.
Qed.

Lemma reads_app c fs gs : reads c (fs ++ gs) -> reads c fs.
Proof.
  intros R j f E. apply R. rewrite nth_error_app1; [exact E|].
  apply nth_error_Some. congruence.
Qed.

Lemma reads_here c fs f : reads c (fs ++ [f]) -> feed c (length fs + nread c)%nat = Ok f.
Proof.
  intros R. apply R. rewrite nth_error_app2 by lia.
  rewrite Nat.sub_diag. reflexivity.
Qed.

Lemma reads_tail c f fs : reads c (f :: fs) -> reads (advance c 1) fs.
Proof.
  intros R j g E. cbn. rewrite Nat.add_succ_r. apply (R (S j)). exact E.
Qed.

(** After one [ReadFrame] call the connection is [advance c 1]. *)
Ltac fold_advance :=
  repeat match goal with
  | |- context [mkConn (feed ?c) (S (nread ?c)) (log ?c ++ [EvReadFrame])] =>
      change (mkConn (feed c) (S (nread c)) (log c ++ [EvReadFrame]))
        with (advance c 1)
  | E : context [mkConn (feed ?c) (S (nread ?c)) (log ?c ++ [EvReadFrame])] |- _ =>
      change (mkConn (feed c) (S (nread c)) (log c ++ [EvReadFrame]))
        with (advance c 1) in E
  end.

(** The three ways out of one iteration of the loop. *)
Lemma loadImage_loop_err fuel c m e :
  feed c (nread c) = Err e ->
  loadImage_loop (S fuel) c m = Some (Err e, advance c 1).
Proof. intros E. cbn. rewrite E. reflexivity. Qed.

Lemma loadImage_loop_unknown fuel c m f :
  feed c (nread c) = Ok f -> storeFrame f m = None ->
  loadImage_loop (S fuel) c m =
    Some (Err (UnknownFrameType (Format f)), advance c 1).
Proof. intros E S0. cbn. rewrite E, S0. reflexivity. Qed.

Lemma loadImage_loop_last fuel c m f m' :
  feed c (nread c) = Ok f -> storeFrame f m = Some m' -> IsLast f = true ->
  loadImage_loop (S fuel) c m = Some (Ok m', advance c 1).
Proof. intros E S0 L. cbn. rewrite E, S0, L. reflexivity. Qed.

(** The iterations that store a frame and continue. *)
Lemma loadImage_loop_inner pre : forall c m fuel,
  reads c pre -> Forall inner pre ->
  loadImage_loop (length pre + fuel) c m =
    loadImage_loop fuel (advance c (length pre)) (assemble pre m).
Proof.
  induction pre as [|f pre IH]; intros c m fuel R HI.
  - cbn. rewrite advance_0. reflexivity.
  - inversion HI as [|? ? [NL RF] HI']; subst.
    destruct (storeFrame_recognized f m RF) as [m' S0].
    assert (E : feed c (nread c) = Ok f) by (apply (R 0%nat); reflexivity).
    cbn [length Nat.add loadImage_loop ReadFrame]. rewrite E, S0, NL.
    fold_advance.
    rewrite (IH (advance c 1) m' fuel (reads_tail c f pre R) HI').
    rewrite advance_advance, (assemble_cons f pre m m' S0). reflexivity.
Qed.

Lemma loadImage_loop_mono fuel : forall c m x fuel',
  loadImage_loop fuel c m = Some x -> (fuel <= fuel')%nat ->
  loadImage_loop fuel' c m = Some x.
Proof.
  induction fuel as [|fuel IH]; intros c m x fuel' E Hle; [discriminate|].
  destruct fuel' as [|fuel']; [lia|].
  cbn in *. destruct (feed c (nread c)) as [f|e]; [|exact E].
  destruct (storeFrame f m) as [m'|]; [|exact E].
  destruct (IsLast f); [exact E|].
  apply IH; [exact E | lia].
Qed.

(** What an assembler call does to the connection: it only reads. *)
Lemma loadImage_loop_conn fuel : forall c m r c',
  loadImage_loop fuel c m = Some (r, c') ->
  exists k, c' = advance c (S k) /\ (k < fuel)%nat.
Proof.
  induction fuel as [|fuel IH]; intros c m r c' E; [discriminate|].
  cbn in E.
  fold_advance.
  destruct (feed c (nread c)) as [f|e].
  2:{ inversion E; subst. exists 0%nat. split; [reflexivity | lia]. }
  destruct (storeFrame f m) as [m'|].
  2:{ inversion E; subst. exists 0%nat. split; [reflexivity | lia]. }
  destruct (IsLast f).
  { inversion E; subst. exists 0%nat. split; [reflexivity | lia]. }
  destruct (IH _ _ _ _ E) as (k & -> & Hk).
  exists (S k). rewrite advance_advance. split; [reflexivity | lia].
Qed.

Lemma loads_mono c r c' fuel fuel' :
  loadImage fuel c = Some (r, c') -> (fuel <= fuel')%nat ->
  loadImage fuel' c = Some (r, c').
Proof. apply loadImage_loop_mono. Qed.

(** The loop ends as soon as a call fails or delivers a last frame. *)
Lemma loadImage_loop_stops k : forall c m fuel,
  stops c k -> (k < fuel)%nat ->
  exists r j, (j <= k)%nat /\
    loadImage_loop fuel c m = Some (r, advance c (S j)).
Proof.
  induction k as [|k IH]; intros c m fuel St Hf;
    (destruct fuel as [|fuel]; [lia|]); unfold stops in St.
  - cbn in St. exists (match feed c (nread c) with
                        | Err e => Err e
                        | Ok f => match storeFrame f m with
                                  | Some m' => Ok m'
                                  | None => Err (UnknownFrameType (Format f))
                                  end
                        end), 0%nat.
    split; [lia|]. cbn.
    destruct (feed c (nread c)) as [f|e]; [|reflexivity].
    destruct (storeFrame f m); [|reflexivity].
    rewrite St. reflexivity.
  - destruct (feed c (nread c)) as [f|e] eqn:E.
    2:{ exists (Err e), 0%nat. split; [lia|]. exact (loadImage_loop_err fuel c m e E). }
    destruct (storeFrame f m) as [m'|] eqn:S0.
    2:{ exists (Err (UnknownFrameType (Format f))), 0%nat. split; [lia|].
        exact (loadImage_loop_unknown fuel c m f E S0). }
    destruct (IsLast f) eqn:L.
    { exists (Ok m'), 0%nat. split; [lia|]. exact (loadImage_loop_last fuel c m f m' E S0 L). }
    destruct (IH (advance c 1) m' fuel) as (r & j & Hj & Hr).
    { unfold stops. cbn. rewrite Nat.add_succ_r. exact St. }
    { lia. }
    exists r, (S j). split; [lia|].
    cbn. rewrite E, S0, L.
    fold_advance.
    rewrite Hr, advance_advance. reflexivity.
Qed.

(** The three results of an assembler call, after [pre] was stored. *)
Lemma loadImage_image c pre l fuel :
  reads c (pre ++ [l]) -> Forall inner pre ->
  recognized (Format l) -> IsLast l = true -> (length pre < fuel)%nat ->
  loadImage fuel c =
    Some (Ok (assemble (pre ++ [l]) emptyImage), advance c (S (length pre))).
Proof.
  intros R HI RF L Hf. unfold loadImage.
  replace fuel with (length pre + S (fuel - S (length pre)))%nat by lia.
  rewrite (loadImage_loop_inner pre c _ _ (reads_app c pre [l] R) HI).
  destruct (storeFrame_recognized l (assemble pre emptyImage) RF) as [m' S0].
  rewrite (loadImage_loop_last _ _ _ l m'); trivial.
  - rewrite advance_advance, Nat.add_1_r, (assemble_snoc pre l _ m' S0).
    reflexivity.
  - cbn. apply reads_here. exact R.
Qed.

Lemma loadImage_error c pre e fuel :
  reads c pre -> Forall inner pre ->
  feed c (length pre + nread c)%nat = Err e -> (length pre < fuel)%nat ->
  loadImage fuel c = Some (Err e, advance c (S (length pre))).
Proof.
  intros R HI E Hf. unfold loadImage.
  replace fuel with (length pre + S (fuel - S (length pre)))%nat by lia.
  rewrite (loadImage_loop_inner pre c _ _ R HI).
  rewrite (loadImage_loop_err _ _ _ e); [|exact E].
  rewrite advance_advance, Nat.add_1_r. reflexivity.
Qed.

Lemma loadImage_unknown c pre u fuel :
  reads c (pre ++ [u]) -> Forall inner pre ->
  ~ recognized (Format u) -> (length pre < fuel)%nat ->
  loadImage fuel c =
    Some (Err (UnknownFrameType (Format u)), advance c (S (length pre))).
Proof.
  intros R HI HU Hf. unfold loadImage.
  replace fuel with (length pre + S (fuel - S (length pre)))%nat by lia.
  rewrite (loadImage_loop_inner pre c _ _ (reads_app c pre [u] R) HI).
  rewrite (loadImage_loop_unknown _ _ _ u).
  - rewrite advance_advance, Nat.add_1_r. reflexivity.
  - cbn. apply reads_here. exact R.
  - apply storeFrame_unknown. exact HU.
Qed.

(** With frames of unknown format anywhere before a last frame, the loop
    ends at the first of them. *)
Lemma loadImage_loop_first_unknown pre : forall c m u,
  reads c (pre ++ [u]) -> Forall (fun f => IsLast f = false) pre ->
  ~ recognized (Format u) ->
  exists v j, (j <= length pre)%nat /\ nth_error (pre ++ [u]) j = Some v /\
    ~ recognized (Format v) /\
    forall fuel, (j < fuel)%nat ->
      loadImage_loop fuel c m =
        Some (Err (UnknownFrameType (Format v)), advance c (S j)).
Proof.
  induction pre as [|f pre IH]; intros c m u R NL HU.
  - exists u, 0%nat. repeat split; [cbn; lia | exact HU |].
    intros [|fuel] Hf; [lia|].
    apply loadImage_loop_unknown; [apply (R 0%nat); reflexivity|].
    apply storeFrame_unknown. exact HU.
  - assert (E : feed c (nread c) = Ok f) by (apply (R 0%nat); reflexivity).
    inversion NL as [|? ? NLf NL']; subst.
    destruct (recognized_dec (Format f)) as [RF|UF].
    + destruct (storeFrame_recognized f m RF) as [m' S0].
      destruct (IH (advance c 1) m' u (reads_tail c f _ R) NL' HU)
        as (v & j & Hj & Hn & Hv & Hrun).
      exists v, (S j). repeat split; [cbn; lia | exact Hn | exact Hv |].
      intros [|fuel] Hf; [lia|].
      cbn [loadImage_loop ReadFrame]. rewrite E, S0, NLf.
      fold_advance.
      rewrite (Hrun fuel) by lia. rewrite advance_advance. reflexivity.
    + exists f, 0%nat. repeat split; [cbn; lia | exact UF |].
      intros [|fuel] Hf; [lia|].
      apply loadImage_loop_unknown; [exact E|].
      apply storeFrame_unknown. exact UF.
Qed.

(** C4. When the frames read before any last frame include one of
    unknown format, [loadImage] fails at the first such frame with the
    error that names its format value; it has then made no further
    [ReadFrame] call, and it returns no image. *)
Theorem loadImage_unknown_format c pre u :
  reads c (pre ++ [u]) -> ~ recognized (Format u) ->
  (Forall inner pre ->
   forall fuel, (length pre < fuel)%nat ->
     loadImage fuel c =
       Some (Err (UnknownFrameType (Format u)), advance c (S (length pre)))) /\
  (Forall (fun f => IsLast f = false) pre ->
   exists v j, (j <= length pre)%nat /\ nth_error (pre ++ [u]) j = Some v /\
     ~ recognized (Format v) /\
     forall fuel, (j < fuel)%nat ->
       loadImage fuel c =
         Some (Err (UnknownFrameType (Format v)), advance c (S j)) /\
       forall m c', loadImage fuel c <> Some (Ok m, c')).
Proof.
  intros R HU. split.
  - intros HI fuel Hf. now apply loadImage_unknown.
  - intros NL.
    destruct (loadImage_loop_first_unknown pre c emptyImage u R NL HU)
      as (v & j & Hj & Hn & Hv & Hrun).
    exists v, j. repeat split; trivial.
    + now apply Hrun.
    + intros m c' E. unfold loadImage in E. rewrite (Hrun fuel) in E by trivial.
      discriminate.
Qed.

Lemma loadImage_unknown_format_witness :
  (forall fuel, (1 < fuel)%nat ->
     loadImage fuel oddSecond =
       Some (Err (UnknownFrameType 99), advance oddSecond 2)) /\
  exists v j, (j <= 1)%nat /\
    nth_error [redPlane 8 false; oddFrame false] j = Some v /\
    ~ recognized (Format v) /\
    forall fuel, (j < fuel)%nat ->
      loadImage fuel oddSecond =
        Some (Err (UnknownFrameType (Format v)), advance oddSecond (S j)) /\
      forall m c', loadImage fuel oddSecond <> Some (Ok m, c').
Proof.
  assert (R : reads oddSecond ([redPlane 8 false] ++ [oddFrame false])).
  { intros [|[|[|j]]] f E; cbn in E; try discriminate;
      inversion E; subst; reflexivity. }
  assert (HU : ~ recognized (Format (oddFrame false))).
  { unfold recognized. cbn. intros [H|[H|[H|[H|H]]]]; discriminate. }
  destruct (loadImage_unknown_format oddSecond [redPlane 8 false] (oddFrame false)
              R HU) as (First & Any).
  split.
  - apply First. constructor; [|constructor].
    split; [reflexivity | unfold recognized; cbn; tauto].
  - apply Any. constructor; [reflexivity | constructor].
Defined.

(** C9, as it holds.  Whenever some [ReadFrame] call, the [k]-th from
    now, fails or delivers a last frame, [loadImage] terminates after at
    most [k + 1] calls.  If every frame up to and including the first
    last frame has a recognized format, it reads exactly up to that
    frame and returns the image assembled from them; if [ReadFrame]
    fails after frames of recognized format only, it returns that very
    error value, so an empty tray arrives as [ErrEmpty]. *)
Theorem loadImage_terminates c :
  (forall k, stops c k ->
     forall fuel, (k < fuel)%nat ->
       exists r j, (j <= k)%nat /\ loadImage fuel c = Some (r, advance c (S j))) /\
  (forall pre l,
     reads c (pre ++ [l]) -> Forall inner pre ->
     recognized (Format l) -> IsLast l = true ->
     forall fuel, (length pre < fuel)%nat ->
       loadImage fuel c =
         Some (Ok (assemble (pre ++ [l]) emptyImage), advance c (S (length pre)))) /\
  (forall pre e,
     reads c pre -> Forall inner pre ->
     feed c (length pre + nread c)%nat = Err e ->
     forall fuel, (length pre < fuel)%nat ->
       loadImage fuel c = Some (Err e, advance c (S (length pre)))).
Proof.
  split; [|split].
  - intros k St fuel Hf. now apply loadImage_loop_stops.
  - intros pre l R HI RF L fuel Hf. now apply loadImage_image.
  - intros pre e R HI E fuel Hf. now apply loadImage_error.
Qed.

Lemma loadImage_terminates_witness :
  (exists r j, (j <= 2)%nat /\ loadImage 3 threePass = Some (r, advance threePass (S j))) /\
  loadImage 3 threePass = Some (Ok planarImage, advance threePass 3) /\
  loadImage 3 jammedMidPage = Some (Err (Status ErrJammed), advance jammedMidPage 3) /\
  loadImage 1 emptyTray = Some (Err (Status ErrEmpty), advance emptyTray 1).
Proof.
  assert (In8 : forall f, IsLast f = false ->
                          Format f = FrameRed \/ Format f = FrameGreen -> inner f).
  { intros f NL HF. split; [exact NL|]. unfold recognized. tauto. }
  assert (HI : Forall inner [redPlane 8 false; greenPlane false]).
  { constructor; [apply In8; [reflexivity | left; reflexivity]|].
    constructor; [apply In8; [reflexivity | right; reflexivity]|constructor]. }
  assert (R2 : forall c, feed c 0%nat = Ok (redPlane 8 false) ->
                         feed c 1%nat = Ok (greenPlane false) -> nread c = 0%nat ->
                         reads c [redPlane 8 false; greenPlane false]).
  { intros c E0 E1 N [|[|j]] f E; cbn in E; rewrite N, Nat.add_0_r;
      try (inversion E; subst; assumption).
    destruct j; discriminate. }
  assert (R3 : reads threePass ([redPlane 8 false; greenPlane false] ++ [bluePlane true])).
  { intros [|[|[|j]]] f E; cbn in E; try (inversion E; subst; reflexivity).
    destruct j; discriminate. }
  destruct (loadImage_terminates threePass) as (Term & Img & _).
  destruct (loadImage_terminates jammedMidPage) as (_ & _ & Fail).
  destruct (loadImage_terminates emptyTray) as (_ & _ & Fail0).
  split; [apply (Term 2%nat); [reflexivity | lia]|].
  split.
  { apply (Img [redPlane 8 false; greenPlane false] (bluePlane true) R3 HI).
    - unfold recognized. cbn. tauto.
    - reflexivity.
    - cbn. lia. }
  split.
  { apply (Fail [redPlane 8 false; greenPlane false] (Status ErrJammed)).
    - apply R2; reflexivity.
    - exact HI.
    - reflexivity.
    - cbn. lia. }
  apply (Fail0 [] (Status ErrEmpty)).
  - intros [|j] f E; discriminate.
  - constructor.
  - reflexivity.
  - cbn. lia.
Defined.

(** C9 as stated fails on a frame of unknown format: the first frame the
    device delivers is marked as the last one, yet no image is returned,
    whatever the fuel. *)
Lemma loadImage_terminates_counterexample :
  feed oddLast (nread oddLast) = Ok (oddFrame true) /\
  IsLast (oddFrame true) = true /\
  stops oddLast 0 /\
  loadImage 1 oddLast = Some (Err (UnknownFrameType 99), advance oddLast 1) /\
  forall fuel m c', loadImage fuel oddLast <> Some (Ok m, c').
Proof.
  repeat split.
  intros [|fuel] m c' E; discriminate.
Qed.

(* ===================================================================== *)
(** * Images that lack a slot *)

Lemma At_negative_x m x y : x < 0 -> At m x y = Returns zeroColor.
Proof.
  intros Hx. unfold At. destruct (Z.ltb_spec x 0); [reflexivity | lia].
Qed.

Lemma At_no_primary m x y : fs0 m = None -> 0 <= x -> At m x y = Panics.
Proof.
  intros H0 Hx. unfold At. rewrite H0.
  destruct (Z.ltb_spec x 0); [lia | reflexivity].
Qed.

(** C10, as it holds.  [loadImage] does not check which slots were
    filled: it succeeds as soon as a frame of recognized format that is
    marked as the last one was stored.  On a stream whose first frame is
    a last Green or Blue frame it returns an image whose primary slot is
    nil; on that image [Bounds] and [ColorModel] panic, and [At] panics
    at every coordinate with [x >= 0], whereas for [x < 0] its bounds
    test is decided before the primary frame is read and it returns the
    zero colour. *)
Theorem loadImage_no_channel_check c :
  (forall pre l,
     reads c (pre ++ [l]) -> Forall inner pre ->
     recognized (Format l) -> IsLast l = true ->
     forall fuel, (length pre < fuel)%nat ->
       loadImage fuel c =
         Some (Ok (assemble (pre ++ [l]) emptyImage), advance c (S (length pre)))) /\
  (forall f,
     feed c (nread c) = Ok f ->
     Format f = FrameGreen \/ Format f = FrameBlue -> IsLast f = true ->
     forall fuel, (0 < fuel)%nat ->
       exists m,
         loadImage fuel c = Some (Ok m, advance c 1) /\
         fs0 m = None /\
         Bounds m = Panics /\
         ColorModel m = Panics /\
         (forall x y, 0 <= x -> At m x y = Panics) /\
         (forall x y, x < 0 -> At m x y = Returns zeroColor)).
Proof.
  split.
  - intros pre l R HI RF L fuel Hf. now apply loadImage_image.
  - intros f E HF L [|fuel] Hf; [lia|].
    assert (S0 : exists m, storeFrame f emptyImage = Some m /\ fs0 m = None).
    { unfold storeFrame. destruct HF as [HF|HF]; rewrite HF; cbn; eauto. }
    destruct S0 as (m & S0 & H0).
    exists m. split; [|repeat split].
    + exact (loadImage_loop_last fuel c emptyImage f m E S0 L).
    + exact H0.
    + unfold Bounds. rewrite H0. reflexivity.
    + unfold ColorModel. rewrite H0. reflexivity.
    + intros x y Hx. now apply At_no_primary.
    + intros x y Hx. now apply At_negative_x.
Qed.

Lemma loadImage_no_channel_check_witness :
  loadImage 1 redOnly = Some (Ok redOnlyImage, advance redOnly 1) /\
  exists m,
    loadImage 1 greenOnly = Some (Ok m, advance greenOnly 1) /\
    fs0 m = None /\
    Bounds m = Panics /\
    ColorModel m = Panics /\
    (forall x y, 0 <= x -> At m x y = Panics) /\
    (forall x y, x < 0 -> At m x y = Returns zeroColor).
Proof.
  destruct (loadImage_no_channel_check redOnly) as (Any & _).
  destruct (loadImage_no_channel_check greenOnly) as (_ & NoPrimary).
  split.
  - apply (Any [] (redPlane 4 true)).
    + intros [|[|j]] f E; cbn in E; try discriminate.
      inversion E; subst; reflexivity.
    + constructor.
    + unfold recognized. cbn. tauto.
    + reflexivity.
    + cbn. lia.
  - apply (NoPrimary (greenPlane true)).
    + reflexivity.
    + left. reflexivity.
    + reflexivity.
    + lia.
Defined.

(** C10 as stated fails for [At] at a negative [x]: on the image
    assembled from a single Green frame, whose primary slot is nil, the
    call returns the zero colour. *)
Lemma At_no_primary_counterexample :
  loadImage 1 greenOnly = Some (Ok greenOnlyImage, advance greenOnly 1) /\
  fs0 greenOnlyImage = None /\
  At greenOnlyImage (-1) 0 = Returns (RGBA 0 0 0 0) /\
  At greenOnlyImage (-1) 0 <> Panics.
Proof. repeat split. discriminate. Qed.

(** C7, as it holds.  On an image that has a primary frame, [At] returns
    the zero colour at every coordinate outside the bounds of that
    frame, whatever format and depth; and it returns the zero colour
    when the depth is none of 1, 8, 16, provided the frames the colour
    path reads are there: always for a Gray or Rgb primary frame, slots
    1 and 2 for a planar one. *)
Theorem At_zero_color m f x y :
  fs0 m = Some f ->
  (~ inBounds f x y -> At m x y = Returns zeroColor) /\
  (Depth f <> 1 -> Depth f <> 8 -> Depth f <> 16 ->
   Format f = FrameGray \/ Format f = FrameRgb \/ (fs1 m <> None /\ fs2 m <> None) ->
   At m x y = Returns zeroColor).
Proof.
  intros H0. split; [exact (At_outside m f x y H0)|].
  intros D1 D8 D16 HC.
  assert (DB : inBounds f x y \/ ~ inBounds f x y) by (unfold inBounds; lia).
  destruct DB as [HB|HB]; [|exact (At_outside m f x y H0 HB)].
  rewrite (At_inBounds m f x y H0 HB).
  destruct (Z.eqb_spec (Depth f) 1); [contradiction|].
  destruct (Z.eqb_spec (Depth f) 8); [contradiction|].
  destruct (Z.eqb_spec (Depth f) 16); [contradiction|].
  destruct (Z.eqb_spec (Format f) FrameGray) as [G|G]; [reflexivity|].
  destruct (Z.eqb_spec (Format f) FrameRgb) as [I|I].
  - cbn. f_equal. now apply packRGB_other_depth.
  - destruct HC as [HC|[HC|[P1 P2]]]; try contradiction.
    destruct (fs1 m) as [f1|]; [|contradiction].
    destruct (fs2 m) as [f2|]; [|contradiction].
    cbn. f_equal. now apply packRGB_other_depth.
Qed.

Lemma At_zero_color_witness :
  At planarImage 4 0 = Returns zeroColor /\
  At rgbImage 0 (-1) = Returns zeroColor /\
  At (mkImage (Some (grayPage 4)) None None) 1 1 = Returns zeroColor /\
  At (mkImage (Some (redPlane 4 false)) (Some (greenPlane false)) (Some (bluePlane true)))
     1 1 = Returns zeroColor.
Proof.
  assert (Out : forall f x y, Width f = 4 -> x = 4 \/ y = -1 -> ~ inBounds f x y).
  { intros f x y W Hxy [Hx Hy]. rewrite W in Hx. lia. }
  destruct (At_zero_color planarImage _ 4 0 eq_refl) as (OutX & _).
  destruct (At_zero_color rgbImage _ 0 (-1) eq_refl) as (OutY & _).
  destruct (At_zero_color (mkImage (Some (grayPage 4)) None None) _ 1 1 eq_refl)
    as (_ & OddGray).
  destruct (At_zero_color
              (mkImage (Some (redPlane 4 false)) (Some (greenPlane false))
                       (Some (bluePlane true))) _ 1 1 eq_refl)
    as (_ & OddPlanar).
  split; [apply OutX, Out; [reflexivity | left; reflexivity]|].
  split; [apply OutY, Out; [reflexivity | right; reflexivity]|].
  split; [apply OddGray; try discriminate; left; reflexivity|].
  apply OddPlanar; try discriminate.
  right. right. split; discriminate.
Defined.

(** C7 as stated fails on a planar image that lacks a plane: the image
    assembled from a single Red frame of depth 4 has a primary frame and
    a depth that is none of 1, 8, 16, yet [At] at the in-bounds
    coordinate (0, 0) reads the nil green slot. *)
Lemma At_zero_color_counterexample :
  loadImage 1 redOnly = Some (Ok redOnlyImage, advance redOnly 1) /\
  fs0 redOnlyImage = Some (redPlane 4 true) /\
  Depth (redPlane 4 true) = 4 /\
  inBounds (redPlane 4 true) 0 0 /\
  At redOnlyImage 0 0 = Panics /\
  At redOnlyImage 0 0 <> Returns (RGBA 0 0 0 0).
Proof.
  repeat split; try (cbn; lia). discriminate.
Qed.

(* ===================================================================== *)
(** * Acquisition strategies *)

Lemma isErrEmpty_true e : isErrEmpty e = true <-> e = Status ErrEmpty.
Proof.
  split; [|intros ->; reflexivity].
  destruct e as [[]| |]; cbn; intros E; congruence.
Qed.

Lemma isErrEmpty_false e : e <> Status ErrEmpty -> isErrEmpty e = false.
Proof.
  intros NE. destruct (isErrEmpty e) eqn:E; [|reflexivity].
  apply isErrEmpty_true in E. contradiction.
Qed.

Lemma pages_conn c ms c' : pages c ms c' -> exists k, c' = advance c k.
Proof.
  induction 1 as [c|c m c1 ms c2 [fuel L] _ (k & ->)].
  - exists 0%nat. now rewrite advance_0.
  - destruct (loadImage_loop_conn _ _ _ _ _ L) as (j & -> & _).
    exists (S j + k)%nat. now rewrite advance_advance.
Qed.

(** *** Drain all *)

Lemma ReadAvailableImages_loop_run c ms c1 e c2 :
  pages c ms c1 -> loads c1 (Err e) c2 ->
  exists fuel0, forall fuel, (fuel0 <= fuel)%nat -> forall acc,
    ReadAvailableImages_loop fuel c acc =
      Some (if isErrEmpty e && (0 <? Z.of_nat (length (acc ++ ms)))
            then Ok (acc ++ ms) else Err e, c2).
Proof.
  intros Hp. induction Hp as [c|c m c1 ms c3 [n L] Hp IH]; intros Hl.
  - destruct Hl as [n L]. exists (S n). intros [|fuel] Hf acc; [lia|].
    cbn [ReadAvailableImages_loop].
    rewrite (loads_mono c _ _ n (S fuel) L) by lia.
    rewrite app_nil_r.
    destruct (isErrEmpty e && (0 <? Z.of_nat (length acc))); reflexivity.
  - destruct (IH Hl) as [fuel1 Run].
    exists (S (Nat.max n fuel1)). intros [|fuel] Hf acc; [lia|].
    cbn [ReadAvailableImages_loop].
    rewrite (loads_mono c _ _ n (S fuel) L) by lia.
    rewrite (Run fuel) by lia.
    rewrite <- app_assoc. reflexivity.
Qed.

Lemma ReadAvailableImages_loop_conn fuel : forall c acc r c',
  ReadAvailableImages_loop fuel c acc = Some (r, c') ->
  exists k, c' = advance c k.
Proof.
  induction fuel as [|fuel IH]; intros c acc r c' E; [discriminate|].
  cbn [ReadAvailableImages_loop] in E.
  destruct (loadImage (S fuel) c) as [[[m|e] c1]|] eqn:L; [| |discriminate];
    destruct (loadImage_loop_conn _ _ _ _ _ L) as (j & -> & _).
  - destruct (IH _ _ _ _ E) as (k & ->).
    exists (S j + k)%nat. now rewrite advance_advance.
  - exists (S j).
    destruct (isErrEmpty e && (0 <? Z.of_nat (length acc)));
      inversion E; reflexivity.
Qed.

(** C1. [ReadAvailableImages] calls the assembler again and again and
    collects the images in order.  When the calls yield the images [ms],
    at least one, and then fail with [ErrEmpty], it returns exactly [ms]
    and no error.  When the very first call fails with [ErrEmpty], or any
    call fails with another error, it returns that error and no image. *)
Theorem ReadAvailableImages_drains c :
  (forall ms c1 c2,
     ms <> [] -> pages c ms c1 -> loads c1 (Err (Status ErrEmpty)) c2 ->
     exists fuel0, forall fuel, (fuel0 <= fuel)%nat ->
       ReadAvailableImages fuel c = Some (Ok ms, Cancel c2)) /\
  (forall c2,
     loads c (Err (Status ErrEmpty)) c2 ->
     exists fuel0, forall fuel, (fuel0 <= fuel)%nat ->
       ReadAvailableImages fuel c = Some (Err (Status ErrEmpty), Cancel c2)) /\
  (forall ms c1 e c2,
     pages c ms c1 -> loads c1 (Err e) c2 -> e <> Status ErrEmpty ->
     exists fuel0, forall fuel, (fuel0 <= fuel)%nat ->
       ReadAvailableImages fuel c = Some (Err e, Cancel c2)).
Proof.
  split; [|split].
  - intros ms c1 c2 NE Hp Hl.
    destruct (ReadAvailableImages_loop_run c ms c1 _ c2 Hp Hl) as [fuel0 Run].
    exists fuel0. intros fuel Hf. unfold ReadAvailableImages.
    rewrite (Run fuel Hf). cbn.
    destruct ms as [|m ms]; [contradiction | reflexivity].
  - intros c2 Hl.
    destruct (ReadAvailableImages_loop_run c [] c _ c2 (pages_nil c) Hl)
      as [fuel0 Run].
    exists fuel0. intros fuel Hf. unfold ReadAvailableImages.
    rewrite (Run fuel Hf). reflexivity.
  - intros ms c1 e c2 Hp Hl NE.
    destruct (ReadAvailableImages_loop_run c ms c1 e c2 Hp Hl) as [fuel0 Run].
    exists fuel0. intros fuel Hf. unfold ReadAvailableImages.
    rewrite (Run fuel Hf), (isErrEmpty_false e NE). reflexivity.
Qed.

Lemma pages_feeder2 : pages feeder2 [grayImage; rgbImage] (advance feeder2 2).
Proof.
  apply pages_cons with (c1 := advance feeder2 1); [exists 1%nat; reflexivity|].
  apply pages_cons with (c1 := advance feeder2 2); [exists 1%nat; reflexivity|].
  apply pages_nil.
Qed.

Lemma pages_jammedAfter1 : pages jammedAfter1 [grayImage] (advance jammedAfter1 1).
Proof.
  apply pages_cons with (c1 := advance jammedAfter1 1);
    [exists 1%nat; reflexivity | apply pages_nil].
Qed.

Lemma ReadAvailableImages_drains_witness :
  (exists fuel0, forall fuel, (fuel0 <= fuel)%nat ->
     ReadAvailableImages fuel feeder2 =
       Some (Ok [grayImage; rgbImage], Cancel (advance feeder2 3))) /\
  (exists fuel0, forall fuel, (fuel0 <= fuel)%nat ->
     ReadAvailableImages fuel emptyTray =
       Some (Err (Status ErrEmpty), Cancel (advance emptyTray 1))) /\
  (exists fuel0, forall fuel, (fuel0 <= fuel)%nat ->
     ReadAvailableImages fuel jammedAfter1 =
       Some (Err (Status ErrJammed), Cancel (advance jammedAfter1 2))).
Proof.
  destruct (ReadAvailableImages_drains feeder2) as (Drain & _).
  destruct (ReadAvailableImages_drains emptyTray) as (_ & Empty & _).
  destruct (ReadAvailableImages_drains jammedAfter1) as (_ & _ & Fail).
  split; [|split].
  - apply (Drain [grayImage; rgbImage] (advance feeder2 2)).
    + discriminate.
    + exact pages_feeder2.
    + exists 1%nat. reflexivity.
  - apply Empty. exists 1%nat. reflexivity.
  - apply (Fail [grayImage] (advance jammedAfter1 1)).
    + exact pages_jammedAfter1.
    + exists 1%nat. reflexivity.
    + discriminate.
Defined.

Example ReadAvailableImages_feeder2 :
  ReadAvailableImages 3 feeder2 =
    Some (Ok [grayImage; rgbImage],
          mkConn (feed feeder2) 3 [EvReadFrame; EvReadFrame; EvReadFrame; EvCancel]).
Proof. reflexivity. Qed.

Example ReadAvailableImages_threePass :
  ReadAvailableImages 4 threePass =
    Some (Ok [planarImage],
          mkConn (feed threePass) 4
                 [EvReadFrame; EvReadFrame; EvReadFrame; EvReadFrame; EvCancel]).
Proof. reflexivity. Qed.

(** *** Continuous read *)

Section HandlerFacts.

Variable H : Type.
Variable process : Image -> H -> option error * H.

Lemma handAll_always ms : forall h,
  (forall m h, fst (process m h) = None) ->
  handAll process ms h =
    (None, fold_left (fun h m => snd (process m h)) ms h).
Proof.
  induction ms as [|m ms IH]; intros h Ok_; [reflexivity|].
  cbn. specialize (Ok_ m h) as E. destruct (process m h) as [[e|] h1];
    cbn in *; [discriminate|].
  now apply IH.
Qed.

Lemma ContinuousRead_loop_run c ms c1 e c2 :
  pages c ms c1 -> loads c1 (Err e) c2 ->
  forall m h h', handAll process (m :: ms) h = (None, h') ->
  exists fuel0, forall fuel, (fuel0 <= fuel)%nat ->
    ContinuousRead_loop process fuel c m h =
      Some (if isErrEmpty e then None else Some e, c2, h').
Proof.
  intros Hp. induction Hp as [c|c m' c1 ms c3 [n L] Hp IH]; intros Hl m h h' HA;
    cbn [handAll] in HA; destruct (process m h) as [[e'|] h1] eqn:P;
    try discriminate.
  - destruct Hl as [n L]. inversion HA; subst.
    exists (S n). intros [|fuel] Hf; [lia|].
    cbn [ContinuousRead_loop]. rewrite P.
    rewrite (loads_mono c _ _ n (S fuel) L) by lia.
    destruct (isErrEmpty e); reflexivity.
  - destruct (IH Hl m' h1 h' HA) as [fuel1 Run].
    exists (S (Nat.max n fuel1)). intros [|fuel] Hf; [lia|].
    cbn [ContinuousRead_loop]. rewrite P.
    rewrite (loads_mono c _ _ n (S fuel) L) by lia.
    apply Run. lia.
Qed.

Lemma ContinuousRead_loop_handler_fails c ms c1 :
  pages c ms c1 ->
  forall m h pre mk h1 e h2,
    m :: ms = pre ++ [mk] ->
    handAll process pre h = (None, h1) -> process mk h1 = (Some e, h2) ->
    exists fuel0, forall fuel, (fuel0 <= fuel)%nat ->
      ContinuousRead_loop process fuel c m h = Some (Some e, c1, h2).
Proof.
  intros Hp. induction Hp as [c|c m' c1 ms c3 [n L] Hp IH];
    intros m h pre mk h1 e h2 Eq HA PF.
  - destruct pre as [|p pre]; cbn in Eq.
    + inversion Eq; subst. cbn in HA. inversion HA; subst.
      exists 1%nat. intros [|fuel] Hf; [lia|].
      cbn [ContinuousRead_loop]. rewrite PF. reflexivity.
    + inversion Eq as [[E1 E2]]. destruct pre; discriminate.
  - destruct pre as [|p pre]; cbn in Eq; [inversion Eq|].
    inversion Eq as [[E1 E2]]; subst p.
    cbn [handAll] in HA. destruct (process m h) as [[e'|] hm] eqn:P;
      [discriminate|].
    destruct (IH m' hm pre mk h1 e h2 E2 HA PF) as [fuel1 Run].
    exists (S (Nat.max n fuel1)). intros [|fuel] Hf; [lia|].
    cbn [ContinuousRead_loop]. rewrite P.
    rewrite (loads_mono c _ _ n (S fuel) L) by lia.
    apply Run. lia.
Qed.

Lemma ContinuousRead_loop_conn fuel : forall c m h r c' h',
  ContinuousRead_loop process fuel c m h = Some (r, c', h') ->
  exists k, c' = advance c k.
Proof.
  induction fuel as [|fuel IH]; intros c m h r c' h' E; [discriminate|].
  cbn [ContinuousRead_loop] in E.
  destruct (process m h) as [[e|] h1].
  { inversion E; subst. exists 0%nat. now rewrite advance_0. }
  destruct (loadImage (S fuel) c) as [[[m'|e] c1]|] eqn:L; [| |discriminate];
    destruct (loadImage_loop_conn _ _ _ _ _ L) as (j & -> & _).
  - destruct (IH _ _ _ _ _ _ E) as (k & ->).
    exists (S j + k)%nat. now rewrite advance_advance.
  - exists (S j). destruct (isErrEmpty e); inversion E; reflexivity.
Qed.

End HandlerFacts.

Lemma fold_recorder ms : forall h,
  fold_left (fun h m => snd (recorder m h)) ms h = h ++ ms.
Proof.
  induction ms as [|m ms IH]; intros h; cbn; [now rewrite app_nil_r|].
  rewrite IH, <- app_assoc. reflexivity.
Qed.

Section StreamFacts.

Variable H : Type.
Variable process : Image -> H -> option error * H.

Lemma ContinuousRead_first_fails c h e c2 :
  loads c (Err e) c2 ->
  exists fuel0, forall fuel, (fuel0 <= fuel)%nat ->
    ContinuousRead process fuel c h = Some (Some e, Cancel c2, h).
Proof.
  intros [n L]. exists n. intros fuel Hf. unfold ContinuousRead.
  rewrite (loads_mono c _ _ n fuel L Hf). reflexivity.
Qed.

Lemma ContinuousRead_run c h ms c1 e c2 h' :
  ms <> [] -> pages c ms c1 -> loads c1 (Err e) c2 ->
  handAll process ms h = (None, h') ->
  exists fuel0, forall fuel, (fuel0 <= fuel)%nat ->
    ContinuousRead process fuel c h =
      Some (if isErrEmpty e then None else Some e, Cancel c2, h').
Proof.
  intros NE Hp Hl HA.
  destruct Hp as [c|c m c' ms c1 [n L] Hp]; [contradiction|].
  destruct (ContinuousRead_loop_run H process c' ms c1 e c2 Hp Hl m h h' HA)
    as [fuel1 Loop].
  exists (Nat.max n fuel1). intros fuel Hf. unfold ContinuousRead.
  rewrite (loads_mono c _ _ n fuel L) by lia.
  rewrite (Loop fuel) by lia. reflexivity.
Qed.

Lemma ContinuousRead_handler_fails c h pre mk c1 h1 e h2 :
  pages c (pre ++ [mk]) c1 ->
  handAll process pre h = (None, h1) -> process mk h1 = (Some e, h2) ->
  exists fuel0, forall fuel, (fuel0 <= fuel)%nat ->
    ContinuousRead process fuel c h = Some (Some e, Cancel c1, h2).
Proof.
  intros Hp HA PF.
  remember (pre ++ [mk]) as all eqn:Eq.
  destruct Hp as [c|c m c' ms c1 [n L] Hp]; [destruct pre; discriminate|].
  destruct (ContinuousRead_loop_handler_fails H process c' ms c1 Hp
              m h pre mk h1 e h2 Eq HA PF) as [fuel1 Loop].
  exists (Nat.max n fuel1). intros fuel Hf. unfold ContinuousRead.
  rewrite (loads_mono c _ _ n fuel L) by lia.
  rewrite (Loop fuel) by lia. reflexivity.
Qed.

(** A failing run of the handler fails at one definite page. *)
Lemma handAll_fails ms : forall h e h',
  handAll process ms h = (Some e, h') ->
  exists pre mk post h1,
    ms = pre ++ mk :: post /\
    handAll process pre h = (None, h1) /\ process mk h1 = (Some e, h').
Proof.
  induction ms as [|m ms IH]; intros h e h' HA; cbn in HA; [discriminate|].
  destruct (process m h) as [[e1|] hm] eqn:P.
  - inversion HA; subst. exists [], m, ms, h. repeat split. exact P.
  - destruct (IH hm e h' HA) as (pre & mk & post & h1 & -> & HA' & PF).
    exists (m :: pre), mk, post, h1. repeat split; [|exact PF].
    cbn. rewrite P. exact HA'.
Qed.

End StreamFacts.

Lemma pages_app_inv a : forall c b c2,
  pages c (a ++ b) c2 -> exists c1, pages c a c1 /\ pages c1 b c2.
Proof.
  induction a as [|m a IH]; intros c b c2 Hp.
  - exists c. split; [apply pages_nil | exact Hp].
  - cbn in Hp. inversion Hp as [|? ? c' ? ? L Hp']; subst.
    destruct (IH c' b c2 Hp') as (c1 & Ha & Hb).
    exists c1. split; [|exact Hb].
    apply pages_cons with (c1 := c'); assumption.
Qed.

(** C2. [ContinuousRead]: when the first fetch fails, with any error,
    that error is returned and the handler is not invoked (its state is
    untouched).  Otherwise, when the fetches yield the pages [ms] and then
    [ErrEmpty] and the handler never fails, the handler is invoked on
    each page of [ms] once, in order, and no error is returned (a handler
    that records its calls ends with exactly [ms]).  When the handler
    fails on a page, its error is returned and the connection is left as
    it was after that page was fetched: nothing more is read.  A fetch
    that fails with another error than [ErrEmpty] after the first page
    has its error returned. *)
Theorem ContinuousRead_streams c :
  (forall H (process : Image -> H -> option error * H) h e c2,
     loads c (Err e) c2 ->
     exists fuel0, forall fuel, (fuel0 <= fuel)%nat ->
       ContinuousRead process fuel c h = Some (Some e, Cancel c2, h)) /\
  (forall H (process : Image -> H -> option error * H) h ms c1 c2,
     ms <> [] -> pages c ms c1 -> loads c1 (Err (Status ErrEmpty)) c2 ->
     (forall m h, fst (process m h) = None) ->
     exists fuel0, forall fuel, (fuel0 <= fuel)%nat ->
       ContinuousRead process fuel c h =
         Some (None, Cancel c2, fold_left (fun h m => snd (process m h)) ms h)) /\
  (forall ms c1 c2,
     ms <> [] -> pages c ms c1 -> loads c1 (Err (Status ErrEmpty)) c2 ->
     exists fuel0, forall fuel, (fuel0 <= fuel)%nat ->
       ContinuousRead recorder fuel c [] = Some (None, Cancel c2, ms)) /\
  (forall H (process : Image -> H -> option error * H) h pre mk c1 h1 e h2,
     pages c (pre ++ [mk]) c1 ->
     handAll process pre h = (None, h1) -> process mk h1 = (Some e, h2) ->
     exists fuel0, forall fuel, (fuel0 <= fuel)%nat ->
       ContinuousRead process fuel c h = Some (Some e, Cancel c1, h2)) /\
  (forall H (process : Image -> H -> option error * H) h ms c1 e c2 h',
     ms <> [] -> pages c ms c1 -> loads c1 (Err e) c2 -> e <> Status ErrEmpty ->
     handAll process ms h = (None, h') ->
     exists fuel0, forall fuel, (fuel0 <= fuel)%nat ->
       ContinuousRead process fuel c h = Some (Some e, Cancel c2, h')).
Proof.
  split; [|split; [|split; [|split]]].
  - intros H process h e c2 Hl. now apply ContinuousRead_first_fails.
  - intros H process h ms c1 c2 NE Hp Hl Always.
    apply (ContinuousRead_run H process c h ms c1 _ c2 _ NE Hp Hl).
    now apply handAll_always.
  - intros ms c1 c2 NE Hp Hl.
    destruct (ContinuousRead_run _ recorder c [] ms c1 _ c2 ms NE Hp Hl)
      as [fuel0 R].
    + rewrite handAll_always by reflexivity. now rewrite fold_recorder.
    + exists fuel0. exact R.
  - intros H process h pre mk c1 h1 e h2 Hp HA PF.
    exact (ContinuousRead_handler_fails H process c h pre mk c1 h1 e h2 Hp HA PF).
  - intros H process h ms c1 e c2 h' NE Hp Hl NEmpty HA.
    destruct (ContinuousRead_run H process c h ms c1 e c2 h' NE Hp Hl HA)
      as [fuel0 R].
    exists fuel0. intros fuel Hf.
    rewrite (R fuel Hf), (isErrEmpty_false e NEmpty). reflexivity.
Qed.

Lemma ContinuousRead_streams_witness :
  (exists fuel0, forall fuel, (fuel0 <= fuel)%nat ->
     ContinuousRead recorder fuel emptyTray [] =
       Some (Some (Status ErrEmpty), Cancel (advance emptyTray 1), [])) /\
  (exists fuel0, forall fuel, (fuel0 <= fuel)%nat ->
     ContinuousRead recorder fuel feeder2 [] =
       Some (None, Cancel (advance feeder2 3), [grayImage; rgbImage])) /\
  (exists fuel0, forall fuel, (fuel0 <= fuel)%nat ->
     ContinuousRead (failingAt 1) fuel feeder2 [] =
       Some (Some (OtherError "disk full"), Cancel (advance feeder2 1), [grayImage])) /\
  (exists fuel0, forall fuel, (fuel0 <= fuel)%nat ->
     ContinuousRead (failingAt 2) fuel feeder2 [] =
       Some (Some (OtherError "disk full"), Cancel (advance feeder2 2),
             [grayImage; rgbImage])) /\
  (exists fuel0, forall fuel, (fuel0 <= fuel)%nat ->
     ContinuousRead recorder fuel jammedAfter1 [] =
       Some (Some (Status ErrJammed), Cancel (advance jammedAfter1 2), [grayImage])).
Proof.
  destruct (ContinuousRead_streams emptyTray) as (First & _).
  destruct (ContinuousRead_streams feeder2) as (_ & Always & _ & Fails & _).
  destruct (ContinuousRead_streams jammedAfter1) as (_ & _ & _ & _ & Broken).
  split; [|split; [|split; [|split]]].
  - apply First. exists 1%nat. reflexivity.
  - apply (Always _ recorder [] [grayImage; rgbImage] (advance feeder2 2)).
    + discriminate.
    + exact pages_feeder2.
    + exists 1%nat. reflexivity.
    + reflexivity.
  - apply (Fails _ (failingAt 1) [] [] grayImage (advance feeder2 1) []).
    + apply pages_cons with (c1 := advance feeder2 1);
        [exists 1%nat; reflexivity | apply pages_nil].
    + reflexivity.
    + reflexivity.
  - apply (Fails _ (failingAt 2) [] [grayImage] rgbImage (advance feeder2 2)
             [grayImage]).
    + exact pages_feeder2.
    + reflexivity.
    + reflexivity.
  - apply (Broken _ recorder [] [grayImage] (advance jammedAfter1 1)).
    + discriminate.
    + exact pages_jammedAfter1.
    + exists 1%nat. reflexivity.
    + discriminate.
    + reflexivity.
Defined.

Example ContinuousRead_feeder2 :
  ContinuousRead recorder 3 feeder2 [] =
    Some (None,
          mkConn (feed feeder2) 3 [EvReadFrame; EvReadFrame; EvReadFrame; EvCancel],
          [grayImage; rgbImage]).
Proof. reflexivity. Qed.

Example ContinuousRead_failing_handler :
  ContinuousRead (failingAt 1) 3 feeder2 [] =
    Some (Some (OtherError "disk full"),
          mkConn (feed feeder2) 1 [EvReadFrame; EvCancel],
          [grayImage]).
Proof. reflexivity. Qed.

(** *** Cancel on exit *)

Lemma Cancel_advance c k : cancelledOnExit c (Cancel (advance c k)).
Proof. exists k. cbn. now rewrite <- app_assoc. Qed.

(** C8. Whenever [ReadImage], [ReadAvailableImages] or [ContinuousRead]
    returns, with a result or with an error, it has called [Cancel] on
    the connection exactly once, as its last action.  And they do return:
    [ReadImage] when some [ReadFrame] call fails or delivers a last
    frame, the other two when the assembler calls yield finitely many
    pages and then fail. *)
Theorem Cancel_on_every_exit :
  (forall fuel c r c',
     ReadImage fuel c = Some (r, c') -> cancelledOnExit c c') /\
  (forall fuel c r c',
     ReadAvailableImages fuel c = Some (r, c') -> cancelledOnExit c c') /\
  (forall H (process : Image -> H -> option error * H) fuel c h r c' h',
     ContinuousRead process fuel c h = Some (r, c', h') -> cancelledOnExit c c') /\
  (forall c k, stops c k ->
     forall fuel, (k < fuel)%nat ->
       exists r c', ReadImage fuel c = Some (r, c') /\ cancelledOnExit c c') /\
  (forall c ms c1 e c2, pages c ms c1 -> loads c1 (Err e) c2 ->
     exists fuel0, forall fuel, (fuel0 <= fuel)%nat ->
       exists r c', ReadAvailableImages fuel c = Some (r, c') /\
                    cancelledOnExit c c') /\
  (forall H (process : Image -> H -> option error * H) c h ms c1 e c2,
     pages c ms c1 -> loads c1 (Err e) c2 ->
     exists fuel0, forall fuel, (fuel0 <= fuel)%nat ->
       exists r c' h', ContinuousRead process fuel c h = Some (r, c', h') /\
                       cancelledOnExit c c').
Proof.
  assert (One : forall fuel c r c',
             ReadImage fuel c = Some (r, c') -> cancelledOnExit c c').
  { intros fuel c r c' E. unfold ReadImage in E.
    destruct (loadImage fuel c) as [[r1 c1]|] eqn:L; [|discriminate].
    destruct (loadImage_loop_conn _ _ _ _ _ L) as (k & -> & _).
    inversion E; subst. apply Cancel_advance. }
  assert (All : forall fuel c r c',
             ReadAvailableImages fuel c = Some (r, c') -> cancelledOnExit c c').
  { intros fuel c r c' E. unfold ReadAvailableImages in E.
    destruct (ReadAvailableImages_loop fuel c []) as [[r1 c1]|] eqn:L;
      [|discriminate].
    destruct (ReadAvailableImages_loop_conn _ _ _ _ _ L) as (k & ->).
    inversion E; subst. apply Cancel_advance. }
  assert (Stream : forall H (process : Image -> H -> option error * H)
                          fuel c h r c' h',
             ContinuousRead process fuel c h = Some (r, c', h') ->
             cancelledOnExit c c').
  { intros H process fuel c h r c' h' E. unfold ContinuousRead in E.
    destruct (loadImage fuel c) as [[[m|e] c1]|] eqn:L; [| |discriminate];
      destruct (loadImage_loop_conn _ _ _ _ _ L) as (j & -> & _).
    - destruct (ContinuousRead_loop process fuel (advance c (S j)) m h)
        as [[[r2 c2] h2]|] eqn:Loop; [|discriminate].
      destruct (ContinuousRead_loop_conn _ _ _ _ _ _ _ _ _ Loop) as (k & ->).
      inversion E; subst. rewrite advance_advance. apply Cancel_advance.
    - inversion E; subst. apply Cancel_advance. }
  split; [exact One|]. split; [exact All|]. split; [exact Stream|].
  split; [|split].
  - intros c k St fuel Hf.
    destruct (loadImage_loop_stops k c emptyImage fuel St Hf) as (r & j & _ & L).
    assert (E : ReadImage fuel c = Some (r, Cancel (advance c (S j)))).
    { unfold ReadImage, loadImage. rewrite L. reflexivity. }
    exists r, (Cancel (advance c (S j))). split; [exact E | exact (One _ _ _ _ E)].
  - intros c ms c1 e c2 Hp Hl.
    destruct (ReadAvailableImages_loop_run c ms c1 e c2 Hp Hl) as [fuel0 Run].
    exists fuel0. intros fuel Hf.
    assert (E : exists r, ReadAvailableImages fuel c = Some (r, Cancel c2)).
    { unfold ReadAvailableImages. rewrite (Run fuel Hf). eauto. }
    destruct E as [r E]. exists r, (Cancel c2).
    split; [exact E | exact (All _ _ _ _ E)].
  - intros H process c h ms c1 e c2 Hp Hl.
    assert (E : exists fuel0 r c' h', forall fuel, (fuel0 <= fuel)%nat ->
                  ContinuousRead process fuel c h = Some (r, c', h')).
    { destruct ms as [|m ms].
      - inversion Hp; subst.
        destruct (ContinuousRead_first_fails H process _ h e c2 Hl) as [fuel0 R].
        eauto.
      - destruct (handAll process (m :: ms) h) as [[e1|] h'] eqn:HA.
        + destruct (handAll_fails H process _ _ _ _ HA)
            as (pre & mk & post & h1 & Eq & HA' & PF).
          rewrite Eq in Hp.
          change (pre ++ mk :: post) with (pre ++ [mk] ++ post) in Hp.
          rewrite app_assoc in Hp.
          destruct (pages_app_inv _ _ _ _ Hp) as (ck & Hk & _).
          destruct (ContinuousRead_handler_fails H process c h pre mk ck h1 e1 h'
                      Hk HA' PF) as [fuel0 R].
          eauto.
        + destruct (ContinuousRead_run H process c h (m :: ms) c1 e c2 h')
            as [fuel0 R]; trivial; [discriminate|].
          eauto. }
    destruct E as (fuel0 & r & c' & h' & R).
    exists fuel0. intros fuel Hf. exists r, c', h'.
    split; [exact (R fuel Hf) | exact (Stream _ _ _ _ _ _ _ _ (R fuel Hf))].
Qed.

Lemma Cancel_on_every_exit_witness :
  cancelledOnExit feeder2 (mkConn (feed feeder2) 1 [EvReadFrame; EvCancel]) /\
  cancelledOnExit emptyTray (mkConn (feed emptyTray) 1 [EvReadFrame; EvCancel]) /\
  cancelledOnExit feeder2
    (mkConn (feed feeder2) 3 [EvReadFrame; EvReadFrame; EvReadFrame; EvCancel]) /\
  cancelledOnExit feeder2 (mkConn (feed feeder2) 1 [EvReadFrame; EvCancel]) /\
  (exists r c', ReadImage 3 threePass = Some (r, c') /\ cancelledOnExit threePass c') /\
  (exists fuel0, forall fuel, (fuel0 <= fuel)%nat ->
     exists r c', ReadAvailableImages fuel feeder2 = Some (r, c') /\
                  cancelledOnExit feeder2 c') /\
  (exists fuel0, forall fuel, (fuel0 <= fuel)%nat ->
     exists r c' h', ContinuousRead (failingAt 2) fuel feeder2 [] = Some (r, c', h') /\
                     cancelledOnExit feeder2 c').
Proof.
  destruct Cancel_on_every_exit as (One & All & Stream & Ret1 & RetAll & RetStream).
  split; [|split; [|split; [|split; [|split; [|split]]]]].
  - apply (One 1%nat feeder2 (Ok grayImage)). reflexivity.
  - apply (One 1%nat emptyTray (Err (Status ErrEmpty))). reflexivity.
  - apply (All 3%nat feeder2 (Ok [grayImage; rgbImage])). reflexivity.
  - apply (Stream _ (failingAt 1) 3%nat feeder2 []
             (Some (OtherError "disk full")) _ [grayImage]).
    reflexivity.
  - apply (Ret1 threePass 2%nat); [reflexivity | lia].
  - apply (RetAll feeder2 [grayImage; rgbImage] (advance feeder2 2)
             (Status ErrEmpty) (advance feeder2 3)).
    + exact pages_feeder2.
    + exists 1%nat. reflexivity.
  - apply (RetStream _ (failingAt 2) feeder2 [] [grayImage; rgbImage]
             (advance feeder2 2) (Status ErrEmpty) (advance feeder2 3)).
    + exact pages_feeder2.
    + exists 1%nat. reflexivity.
Defined.


(* ===================================================================== *)
(** * Further properties of the pixel decoder *)

Lemma Rect_origin w h :
  0 <= w -> 0 <= h -> Rect 0 0 w h = mkRectangle 0 0 w h.
Proof.
  intros Hw Hh. unfold Rect.
  destruct (Z.gtb_spec 0 w); [lia|]. destruct (Z.gtb_spec 0 h); [lia|].
  reflexivity.
Qed.

Lemma Rect_ordered x0 y0 x1 y1 :
  MinX (Rect x0 y0 x1 y1) <= MaxX (Rect x0 y0 x1 y1) /\
  MinY (Rect x0 y0 x1 y1) <= MaxY (Rect x0 y0 x1 y1).
Proof.
  unfold Rect.
  destruct (Z.gtb_spec x0 x1); destruct (Z.gtb_spec y0 y1); cbn; lia.
Qed.

(** X1. On an image with a primary frame, [Bounds] is a rectangle with
    Min <= Max; for a non-negative width and height it is (0,0)-(W,H) and
    a point lies in it exactly when [At] treats it as in bounds; [At]
    returns the zero colour at every point outside [Bounds]; and with a
    negative width or height [At] returns the zero colour everywhere. *)
Theorem Bounds_and_At m f :
  fs0 m = Some f ->
  exists b,
    Bounds m = Returns b /\
    MinX b <= MaxX b /\ MinY b <= MaxY b /\
    (0 <= Width f -> 0 <= Height f ->
       b = mkRectangle 0 0 (Width f) (Height f) /\
       forall x y, inRect b x y <-> inBounds f x y) /\
    (forall x y, ~ inRect b x y -> At m x y = Returns zeroColor) /\
    (Width f < 0 \/ Height f < 0 -> forall x y, At m x y = Returns zeroColor).
Proof.
  intros H0. exists (Rect 0 0 (Width f) (Height f)).
  split; [unfold Bounds; rewrite H0; reflexivity|].
  destruct (Rect_ordered 0 0 (Width f) (Height f)) as [OX OY].
  split; [exact OX|]. split; [exact OY|].
  assert (Neg : Width f < 0 \/ Height f < 0 ->
                forall x y, At m x y = Returns zeroColor).
  { intros HN x y. apply (At_outside m f x y H0). unfold inBounds. lia. }
  split; [|split; [|exact Neg]].
  - intros Hw Hh. rewrite (Rect_origin _ _ Hw Hh).
    split; [reflexivity|]. intros x y. unfold inRect, inBounds. cbn. tauto.
  - intros x y Hout.
    destruct (Z_lt_le_dec (Width f) 0) as [Hw|Hw]; [apply Neg; tauto|].
    destruct (Z_lt_le_dec (Height f) 0) as [Hh|Hh]; [apply Neg; tauto|].
    rewrite (Rect_origin _ _ Hw Hh) in Hout.
    apply (At_outside m f x y H0). unfold inRect, inBounds in *. cbn in Hout.
    tauto.
Qed.

Lemma Bounds_and_At_witness :
  Bounds planarImage = Returns (mkRectangle 0 0 4 3) /\
  (forall x y, inRect (mkRectangle 0 0 4 3) x y <->
               inBounds (redPlane 8 false) x y) /\
  At planarImage 4 0 = Returns zeroColor.
Proof.
  destruct (Bounds_and_At planarImage (redPlane 8 false) eq_refl)
    as (b & Eb & _ & _ & Pos & Out & _).
  assert (W : 0 <= Width (redPlane 8 false)) by (cbn; lia).
  assert (Ht : 0 <= Height (redPlane 8 false)) by (cbn; lia).
  destruct (Pos W Ht) as [Q In_]. subst b.
  split; [exact Eb|]. split; [exact In_|].
  apply Out. unfold inRect. cbn. lia.
Defined.

(** In bounds and at a supported depth, [At] is one of six shapes. *)
Lemma At_supported m f x y :
  fs0 m = Some f -> inBounds f x y -> supportedDepth (Depth f) ->
  planesPresent m f ->
  (Format f = FrameGray /\ Depth f <> 16 /\
   exists v, At m x y = Returns (Gray v) /\ 0 <= v < 2 ^ 8) \/
  (Format f = FrameGray /\ Depth f = 16 /\
   exists v, At m x y = Returns (Gray16 v) /\ 0 <= v < 2 ^ 16) \/
  (Format f <> FrameGray /\ Depth f <> 16 /\
   exists r g b, At m x y = Returns (RGBA r g b 255) /\
                 0 <= r < 2 ^ 8 /\ 0 <= g < 2 ^ 8 /\ 0 <= b < 2 ^ 8) \/
  (Format f <> FrameGray /\ Depth f = 16 /\
   exists r g b, At m x y = Returns (RGBA64 r g b 65535) /\
                 0 <= r < 2 ^ 16 /\ 0 <= g < 2 ^ 16 /\ 0 <= b < 2 ^ 16).
Proof.
  intros H0 HB HD HP. rewrite (At_inBounds m f x y H0 HB).
  assert (U8 : forall z, 0 <= uint8 z < 2 ^ 8)
    by (intros z; unfold uint8; apply Z.mod_pos_bound; lia).
  pose proof (sample_range f x y) as S0.
  destruct (Z.eqb_spec (Format f) FrameGray) as [G|G].
  - destruct HD as [D|[D|D]]; rewrite D; cbn [Z.eqb Pos.eqb].
    + left. repeat split; [exact G | lia | eauto].
    + left. repeat split; [exact G | lia | eauto].
    + right. left. repeat split; [exact G | eauto].
  - right. right.
    assert (RGB : exists r g b,
               0 <= r < 2 ^ 16 /\ 0 <= g < 2 ^ 16 /\ 0 <= b < 2 ^ 16 /\
               (if Format f =? FrameRgb
                then Returns (sample f x y 0, sample f x y 1, sample f x y 2)
                else g <- Frame_At (fs1 m) x y 0 ;;
                     b <- Frame_At (fs2 m) x y 0 ;;
                     Returns (sample f x y 0, g, b)) = Returns (r, g, b)).
    { destruct (Z.eqb_spec (Format f) FrameRgb) as [I|I].
      - exists (sample f x y 0), (sample f x y 1), (sample f x y 2).
        repeat split; apply S0.
      - destruct HP as [HP|[HP|[P1 P2]]]; try contradiction.
        destruct (fs1 m) as [f1|]; [|contradiction].
        destruct (fs2 m) as [f2|]; [|contradiction].
        exists (sample f x y 0), (sample f1 x y 0), (sample f2 x y 0).
        repeat split; try apply S0; apply sample_range. }
    destruct RGB as (r & g & b & Rr & Rg & Rb & ->). cbn [obind].
    unfold packRGB.
    destruct HD as [D|[D|D]]; rewrite D; cbn [Z.eqb Pos.eqb].
    + left. repeat split; [exact G | lia |].
      exists (uint8 (mul16 0xFF r)), (uint8 (mul16 0xFF g)), (uint8 (mul16 0xFF b)).
      repeat split; apply U8.
    + left. repeat split; [exact G | lia |].
      exists (uint8 r), (uint8 g), (uint8 b). repeat split; apply U8.
    + right. repeat split; [exact G |].
      exists r, g, b. repeat split; lia.
Qed.

Lemma ColorModel_value m f :
  fs0 m = Some f ->
  ColorModel m =
    Returns (if Format f =? FrameGray
             then if Depth f =? 16 then Gray16Model else GrayModel
             else if Depth f =? 16 then RGBA64Model else RGBAModel).
Proof.
  intros H0. unfold ColorModel. rewrite H0. cbn [deref obind].
  destruct (Depth f =? 16); destruct (Format f =? FrameGray); reflexivity.
Qed.

Lemma supportedDepth_dec d : {supportedDepth d} + {~ supportedDepth d}.
Proof.
  unfold supportedDepth.
  destruct (Z.eq_dec d 1); [left; tauto|].
  destruct (Z.eq_dec d 8); [left; tauto|].
  destruct (Z.eq_dec d 16); [left; tauto|].
  right; tauto.
Defined.

Lemma inBounds_dec f x y : {inBounds f x y} + {~ inBounds f x y}.
Proof.
  unfold inBounds.
  destruct (Z_le_dec 0 x); [|right; lia].
  destruct (Z_lt_dec x (Width f)); [|right; lia].
  destruct (Z_le_dec 0 y); [|right; lia].
  destruct (Z_lt_dec y (Height f)); [|right; lia].
  left; lia.
Defined.

Lemma At_unsupported m f x y :
  fs0 m = Some f -> planesPresent m f -> ~ supportedDepth (Depth f) ->
  At m x y = Returns zeroColor.
Proof.
  intros H0 HP HD. unfold supportedDepth in HD.
  destruct (inBounds_dec f x y) as [HB|HB]; [|exact (At_outside m f x y H0 HB)].
  rewrite (At_inBounds m f x y H0 HB).
  destruct (Z.eqb_spec (Depth f) 1); [tauto|].
  destruct (Z.eqb_spec (Depth f) 8); [tauto|].
  destruct (Z.eqb_spec (Depth f) 16); [tauto|].
  destruct (Z.eqb_spec (Format f) FrameGray) as [G|G]; [reflexivity|].
  destruct (Z.eqb_spec (Format f) FrameRgb) as [I|I].
  - cbn. f_equal. apply packRGB_other_depth; assumption.
  - destruct HP as [HP|[HP|[P1 P2]]]; try contradiction.
    destruct (fs1 m) as [f1|]; [|contradiction].
    destruct (fs2 m) as [f2|]; [|contradiction].
    cbn. f_equal. apply packRGB_other_depth; assumption.
Qed.

(** X2. In bounds, at a supported depth and with the planes it reads in
    place, the colour [At] returns belongs to the model [ColorModel]
    reports.  Outside these conditions a grayscale image breaks the
    agreement: [At] returns the zero RGBA colour while the model is a
    gray one. *)
Theorem At_matches_ColorModel m f x y :
  fs0 m = Some f ->
  (inBounds f x y -> supportedDepth (Depth f) -> planesPresent m f ->
   exists col, At m x y = Returns col /\ ColorModel m = Returns (modelOf col)) /\
  (Format f = FrameGray ->
   ~ inBounds f x y \/ ~ supportedDepth (Depth f) ->
   At m x y = Returns zeroColor /\ ColorModel m <> Returns (modelOf zeroColor)).
Proof.
  intros H0. rewrite (ColorModel_value m f H0). split.
  - intros HB HD HP.
    destruct (At_supported m f x y H0 HB HD HP)
      as [(G & D & v & E & _)|[(G & D & v & E & _)|
          [(G & D & r & g & b & E & _)|(G & D & r & g & b & E & _)]]];
      rewrite E; eexists; (split; [reflexivity|]); cbn [modelOf];
      destruct (Z.eqb_spec (Format f) FrameGray); try contradiction;
      destruct (Z.eqb_spec (Depth f) 16); try contradiction; reflexivity.
  - intros G Hno. split.
    + destruct Hno as [HB|HD]; [exact (At_outside m f x y H0 HB)|].
      apply (At_unsupported m f x y H0); [left; exact G | exact HD].
    + rewrite G. cbn. destruct (Depth f =? 16); discriminate.
Qed.

Lemma At_matches_ColorModel_witness :
  (exists col, At planarImage 3 2 = Returns col /\
               ColorModel planarImage = Returns (modelOf col)) /\
  At grayImage 4 0 = Returns zeroColor /\
  ColorModel grayImage <> Returns (modelOf zeroColor).
Proof.
  destruct (At_matches_ColorModel planarImage _ 3 2 eq_refl) as (Agree & _).
  destruct (At_matches_ColorModel grayImage _ 4 0 eq_refl) as (_ & Break).
  split.
  - apply Agree.
    + unfold inBounds. cbn. lia.
    + right. left. reflexivity.
    + right. right. split; discriminate.
  - apply Break; [reflexivity|].
    left. unfold inBounds. cbn. lia.
Defined.

Lemma uint8_scale s : 0 <= s <= 1 -> uint8 (mul16 0xFF s) = 255 * s.
Proof.
  intros Hs. rewrite uint8_mul16.
  assert (s = 0 \/ s = 1) as [->| ->] by lia; reflexivity.
Qed.

(** X3. The colour path at an in-bounds coordinate, for the samples
    [r], [g], [b] it reads (channels 0, 1, 2 of the primary frame when it
    is Rgb; channel 0 of slots 0, 1, 2 otherwise): at depth 1 each sample
    that is 0 or 1 becomes 0 or 255; at depth 8 samples below 256 are the
    channel values; at depth 16 the samples are the channel values; alpha
    is always fully opaque. *)
Theorem At_color_depths m f x y r g b :
  fs0 m = Some f -> Format f <> FrameGray -> inBounds f x y ->
  (Format f = FrameRgb /\
   r = sample f x y 0 /\ g = sample f x y 1 /\ b = sample f x y 2) \/
  (Format f <> FrameRgb /\ exists f1 f2,
     fs1 m = Some f1 /\ fs2 m = Some f2 /\
     r = sample f x y 0 /\ g = sample f1 x y 0 /\ b = sample f2 x y 0) ->
  (Depth f = 1 -> r <= 1 -> g <= 1 -> b <= 1 ->
   At m x y = Returns (RGBA (255 * r) (255 * g) (255 * b) 255)) /\
  (Depth f = 8 -> r < 2 ^ 8 -> g < 2 ^ 8 -> b < 2 ^ 8 ->
   At m x y = Returns (RGBA r g b 255)) /\
  (Depth f = 16 -> At m x y = Returns (RGBA64 r g b 65535)).
Proof.
  intros H0 G HB Src.
  assert (E : At m x y = Returns (packRGB (Depth f) r g b) /\
              0 <= r /\ 0 <= g /\ 0 <= b).
  { rewrite (At_inBounds m f x y H0 HB).
    destruct (Z.eqb_spec (Format f) FrameGray); [contradiction|].
    destruct Src as [(I & -> & -> & ->)|(I & f1 & f2 & H1 & H2 & -> & -> & ->)].
    - rewrite I. cbn. repeat split; apply sample_range.
    - destruct (Z.eqb_spec (Format f) FrameRgb); [contradiction|].
      rewrite H1, H2. cbn. repeat split; apply sample_range. }
  destruct E as (-> & Pr & Pg & Pb). unfold packRGB.
  split; [|split]; intros D; rewrite D; cbn [Z.eqb Pos.eqb].
  - intros Hr Hg Hb. rewrite !uint8_scale by lia. reflexivity.
  - intros Hr Hg Hb. unfold uint8. rewrite !Z.mod_small by lia. reflexivity.
  - reflexivity.
Qed.

Lemma At_color_depths_witness :
  At rgbImage 3 2 = Returns (RGBA 29 30 31 255) /\
  At (mkImage (Some (redPlane 16 false)) (Some (greenPlane false))
              (Some (bluePlane true))) 3 2 = Returns (RGBA64 29 30 31 65535) /\
  At (mkImage (Some (mkFrame FrameRgb 4 3 1 true (fun x _ ch => (x + ch) mod 2)))
              None None) 3 2 = Returns (RGBA 255 0 255 255).
Proof.
  assert (B : forall f, Width f = 4 -> Height f = 3 -> inBounds f 3 2).
  { intros f W Ht. unfold inBounds. rewrite W, Ht. lia. }
  split; [|split].
  - apply (At_color_depths rgbImage rgbPage 3 2 29 30 31 eq_refl).
    + discriminate.
    + apply B; reflexivity.
    + left. repeat split.
    + reflexivity.
    + cbn; lia.
    + cbn; lia.
    + cbn; lia.
  - apply (At_color_depths
             (mkImage (Some (redPlane 16 false)) (Some (greenPlane false))
                      (Some (bluePlane true)))
             (redPlane 16 false) 3 2 29 30 31 eq_refl).
    + discriminate.
    + apply B; reflexivity.
    + right. split; [discriminate|].
      exists (greenPlane false), (bluePlane true). repeat split.
    + reflexivity.
  - apply (At_color_depths
             (mkImage (Some (mkFrame FrameRgb 4 3 1 true
                               (fun x _ ch => (x + ch) mod 2))) None None)
             (mkFrame FrameRgb 4 3 1 true (fun x _ ch => (x + ch) mod 2))
             3 2 1 0 1 eq_refl).
    + discriminate.
    + apply B; reflexivity.
    + left. repeat split.
    + reflexivity.
    + lia.
    + lia.
    + lia.
Defined.

(** X4. With a primary frame and the planes it reads in place, [At]
    returns the zero colour exactly when the coordinate is out of bounds
    or the depth is unsupported: a pixel that was really decoded is never
    the zero colour. *)
Theorem At_zero_iff m f x y :
  fs0 m = Some f -> planesPresent m f ->
  (At m x y = Returns zeroColor <->
   ~ inBounds f x y \/ ~ supportedDepth (Depth f)).
Proof.
  intros H0 HP. split.
  - intros E.
    destruct (inBounds_dec f x y) as [HB|HB]; [|tauto].
    destruct (supportedDepth_dec (Depth f)) as [HD|HD]; [|tauto].
    exfalso.
    destruct (At_supported m f x y H0 HB HD HP)
      as [(_ & _ & v & E' & _)|[(_ & _ & v & E' & _)|
          [(_ & _ & r & g & b & E' & _)|(_ & _ & r & g & b & E' & _)]]];
      rewrite E' in E; discriminate.
  - intros [HB|HD]; [exact (At_outside m f x y H0 HB)|].
    exact (At_unsupported m f x y H0 HP HD).
Qed.

Lemma At_zero_iff_witness :
  (At rgbImage 4 0 = Returns zeroColor <->
   ~ inBounds rgbPage 4 0 \/ ~ supportedDepth 8) /\
  (At (mkImage (Some (mkFrame FrameRgb 4 3 8 true (fun _ _ _ => 0))) None None) 0 0
   = Returns zeroColor <->
   ~ inBounds (mkFrame FrameRgb 4 3 8 true (fun _ _ _ => 0)) 0 0 \/
   ~ supportedDepth 8).
Proof.
  split.
  - apply (At_zero_iff rgbImage rgbPage 4 0 eq_refl). right. left. reflexivity.
  - apply (At_zero_iff
             (mkImage (Some (mkFrame FrameRgb 4 3 8 true (fun _ _ _ => 0))) None None)
             (mkFrame FrameRgb 4 3 8 true (fun _ _ _ => 0)) 0 0 eq_refl).
    right. left. reflexivity.
Defined.

(** X5. [At] panics in exactly two situations: the primary slot is nil
    and [x >= 0]; or the coordinate is in bounds, the primary frame is
    neither Gray nor Rgb, and slot 1 or slot 2 is nil. *)
Theorem At_panics_iff m x y :
  At m x y = Panics <->
  (fs0 m = None /\ 0 <= x) \/
  (exists f, fs0 m = Some f /\ inBounds f x y /\
             Format f <> FrameGray /\ Format f <> FrameRgb /\
             (fs1 m = None \/ fs2 m = None)).
Proof.
  destruct (fs0 m) as [f|] eqn:H0.
  - destruct (inBounds_dec f x y) as [HB|HB].
    + rewrite (At_inBounds m f x y H0 HB).
      destruct (Z.eqb_spec (Format f) FrameGray) as [G|G].
      { split.
        - destruct (Depth f =? 1); [discriminate|].
          destruct (Depth f =? 8); [discriminate|].
          destruct (Depth f =? 16); discriminate.
        - intros [[E _]|(f' & E & _ & NG & _)]; [discriminate|].
          inversion E; subst. contradiction. }
      destruct (Z.eqb_spec (Format f) FrameRgb) as [I|I].
      { split; [discriminate|].
        intros [[E _]|(f' & E & _ & _ & NI & _)]; [discriminate|].
        inversion E; subst. contradiction. }
      destruct (fs1 m) as [f1|]; [destruct (fs2 m) as [f2|]|]; cbn.
      * split; [discriminate|].
        intros [[E _]|(f' & _ & _ & _ & _ & [E|E])]; discriminate.
      * split; [|reflexivity]. intros _. right. exists f. tauto.
      * split; [|reflexivity]. intros _. right. exists f. tauto.
    + rewrite (At_outside m f x y H0 HB). split; [discriminate|].
      intros [[E _]|(f' & E & HB' & _)]; [discriminate|].
      inversion E; subst. contradiction.
  - split.
    + intros E. left. split; [reflexivity|].
      destruct (Z_lt_le_dec x 0) as [Hx|Hx]; [|exact Hx].
      rewrite (At_negative_x m x y Hx) in E. discriminate.
    + intros [[_ Hx]|(f & E & _)]; [|discriminate].
      exact (At_no_primary m x y H0 Hx).
Qed.

(* ===================================================================== *)
(** * Further properties of the frame assembler *)

Lemma storeFrame_Some f m m' :
  storeFrame f m = Some m' -> recognized (Format f).
Proof.
  intros E. destruct (recognized_dec (Format f)) as [R|U]; [exact R|].
  rewrite (storeFrame_unknown f m U) in E. discriminate.
Qed.

(** Whatever the stream, a call that returns has stored a run of inner
    frames and then met one of the three ways out. *)
Lemma loadImage_loop_inv fuel : forall c m0 r c',
  loadImage_loop fuel c m0 = Some (r, c') ->
  exists pre,
    reads c pre /\ Forall inner pre /\ (length pre < fuel)%nat /\
    c' = advance c (S (length pre)) /\
    match r with
    | Ok m =>
        exists l, feed c (length pre + nread c)%nat = Ok l /\
                  recognized (Format l) /\ IsLast l = true /\
                  m = assemble (pre ++ [l]) m0
    | Err e =>
        feed c (length pre + nread c)%nat = Err e \/
        exists u, feed c (length pre + nread c)%nat = Ok u /\
                  ~ recognized (Format u) /\ e = UnknownFrameType (Format u)
    end.
Proof.
  induction fuel as [|fuel IH]; intros c m0 r c' E; [discriminate|].
  cbn [loadImage_loop ReadFrame] in E. fold_advance.
  destruct (feed c (nread c)) as [f|e] eqn:F.
  2:{ inversion E; subst. exists []. cbn.
      repeat split; [intros [|j] g G; discriminate | constructor | lia |].
      left. exact F. }
  destruct (storeFrame f m0) as [m'|] eqn:S0.
  2:{ inversion E; subst. exists []. cbn.
      repeat split; [intros [|j] g G; discriminate | constructor | lia |].
      right. exists f. repeat split; [exact F|].
      intros R. destruct (storeFrame_recognized f m0 R) as [m' S1]. congruence. }
  pose proof (storeFrame_Some f m0 m' S0) as RF.
  destruct (IsLast f) eqn:L.
  { inversion E; subst. exists []. cbn.
    repeat split; [intros [|j] g G; discriminate | constructor | lia |].
    exists f. repeat split; trivial.
    symmetry. apply (assemble_snoc [] f m0). exact S0. }
  destruct (IH _ _ _ _ E) as (pre & R & HI & Hlen & -> & End_).
  exists (f :: pre).
  assert (Shift : forall j, feed (advance c 1) (j + nread (advance c 1))%nat
                            = feed c (S j + nread c)%nat).
  { intros j. cbn. rewrite Nat.add_succ_r. reflexivity. }
  split; [|split; [|split; [|split]]].
  - intros [|j] g G; cbn in G.
    + inversion G; subst. exact F.
    + rewrite <- Shift. apply R. exact G.
  - constructor; [split; assumption | exact HI].
  - cbn. lia.
  - rewrite advance_advance. reflexivity.
  - cbn [length]. rewrite <- Shift.
    destruct r as [m|e]; [|exact End_].
    destruct End_ as (l & Fl & Rl & Ll & ->).
    exists l. repeat split; trivial.
    symmetry. apply (assemble_cons f (pre ++ [l]) m0 m' S0).
Qed.

(** X6. Whenever [loadImage] returns, on any stream: it has read a run
    of frames of recognized format that were not marked last, and one
    more call; a returned image means that call delivered a recognized
    frame marked last, and the image is the slot contents after all these
    frames; a returned error is either the error of that call, unchanged,
    or the unknown-frame-type error for the frame that call delivered,
    whose format is then not a recognized one.  In particular [ErrEmpty]
    is returned only when [ReadFrame] itself returned it. *)
Theorem loadImage_inversion fuel c r c' :
  loadImage fuel c = Some (r, c') ->
  (exists pre,
     reads c pre /\ Forall inner pre /\ (length pre < fuel)%nat /\
     c' = advance c (S (length pre)) /\
     match r with
     | Ok m =>
         exists l, feed c (length pre + nread c)%nat = Ok l /\
                   recognized (Format l) /\ IsLast l = true /\
                   m = assemble (pre ++ [l]) emptyImage
     | Err e =>
         feed c (length pre + nread c)%nat = Err e \/
         exists u, feed c (length pre + nread c)%nat = Ok u /\
                   ~ recognized (Format u) /\ e = UnknownFrameType (Format u)
     end) /\
  (forall e, r = Err e -> isErrEmpty e = true ->
     exists k, c' = advance c (S k) /\
               feed c (k + nread c)%nat = Err (Status ErrEmpty)).
Proof.
  intros E. pose proof (loadImage_loop_inv fuel c emptyImage r c' E) as Inv.
  split; [exact Inv|].
  intros e -> IE. apply isErrEmpty_true in IE. subst e.
  destruct Inv as (pre & _ & _ & _ & -> & [F|(u & _ & _ & Q)]); [|discriminate].
  exists (length pre). split; [reflexivity | exact F].
Qed.

Lemma loadImage_inversion_witness :
  (exists pre,
     reads threePass pre /\ Forall inner pre /\ (length pre < 5)%nat /\
     advance threePass 3 = advance threePass (S (length pre)) /\
     exists l, feed threePass (length pre + nread threePass)%nat = Ok l /\
               recognized (Format l) /\ IsLast l = true /\
               planarImage = assemble (pre ++ [l]) emptyImage) /\
  (exists k, advance emptyTray 1 = advance emptyTray (S k) /\
             feed emptyTray (k + nread emptyTray)%nat = Err (Status ErrEmpty)).
Proof.
  split.
  - exact (proj1 (loadImage_inversion 5 threePass (Ok planarImage)
                    (advance threePass 3) eq_refl)).
  - exact (proj2 (loadImage_inversion 1 emptyTray (Err (Status ErrEmpty))
                    (advance emptyTray 1) eq_refl)
                 (Status ErrEmpty) eq_refl eq_refl).
Defined.

Lemma storeFrame_slots f m m' :
  slotsWellFormed m -> storeFrame f m = Some m' ->
  slotsWellFormed m' /\ holds m' f /\
  (forall g, holds m' g -> g = f \/ holds m g).
Proof.
  intros (W0 & W1 & W2) E. unfold storeFrame in E. unfold slotsWellFormed, holds.
  destruct (Z.eqb_spec (Format f) FrameGray) as [G|G];
    [|destruct (Z.eqb_spec (Format f) FrameRgb) as [I|I];
      [|destruct (Z.eqb_spec (Format f) FrameRed) as [R|R];
        [|destruct (Z.eqb_spec (Format f) FrameGreen) as [Gr|Gr];
          [|destruct (Z.eqb_spec (Format f) FrameBlue) as [B|B];
            [|discriminate]]]]];
    cbn in E; inversion E; subst; cbn;
    (split; [repeat split; intros g Hg; try (inversion Hg; subst; tauto); auto|]);
    (split; [tauto|]);
    intros g [Hg|[Hg|Hg]]; try (inversion Hg; subst; tauto); tauto.
Qed.

Lemma assemble_slots fs : forall m,
  slotsWellFormed m -> Forall (fun f => recognized (Format f)) fs ->
  slotsWellFormed (assemble fs m) /\
  (forall g, holds (assemble fs m) g -> In g fs \/ holds m g).
Proof.
  induction fs as [|f fs IH]; intros m W HR.
  - cbn. split; [exact W | tauto].
  - inversion HR as [|? ? Rf HR']; subst.
    destruct (storeFrame_recognized f m Rf) as [m' S0].
    destruct (storeFrame_slots f m m' W S0) as (W' & Hf & Only).
    rewrite (assemble_cons f fs m m' S0).
    destruct (IH m' W' HR') as (W'' & From).
    split; [exact W''|].
    intros g Hg. destruct (From g Hg) as [I|Hm']; [left; right; exact I|].
    destruct (Only g Hm') as [->|Hm]; [left; left; reflexivity | right; exact Hm].
Qed.

Lemma inner_recognized pre :
  Forall inner pre -> Forall (fun f => recognized (Format f)) pre.
Proof. apply Forall_impl. intros f [_ R]. exact R. Qed.

Lemma emptyImage_slots : slotsWellFormed emptyImage.
Proof. repeat split; intros f E; discriminate. Qed.

(** X7. Every image [loadImage] returns, on any stream, keeps the slot
    discipline: slot 0 holds nothing or a Gray, Rgb or Red frame, slot 1
    nothing or a Green frame, slot 2 nothing or a Blue frame.  It holds
    the frame delivered by the last call made, which is marked last (so
    it is never the empty image), and every frame it holds was delivered
    by one of the calls made. *)
Theorem loadImage_slots fuel c m c' :
  loadImage fuel c = Some (Ok m, c') ->
  slotsWellFormed m /\
  (exists k l, c' = advance c (S k) /\ feed c (k + nread c)%nat = Ok l /\
               IsLast l = true /\ holds m l) /\
  (forall g, holds m g ->
             exists j, (j + nread c < nread c')%nat /\
                       feed c (j + nread c)%nat = Ok g).
Proof.
  intros E.
  destruct (loadImage_loop_inv fuel c emptyImage (Ok m) c' E)
    as (pre & R & HI & _ & -> & l & Fl & Rl & Ll & ->).
  pose proof (inner_recognized pre HI) as HR.
  destruct (assemble_slots pre emptyImage emptyImage_slots HR) as (Wp & Fp).
  destruct (storeFrame_recognized l (assemble pre emptyImage) Rl) as [m' S0].
  destruct (storeFrame_slots l _ m' Wp S0) as (W' & Hl & Only).
  rewrite (assemble_snoc pre l emptyImage m' S0).
  split; [exact W'|]. split.
  - exists (length pre), l. repeat split; assumption.
  - intros g Hg. cbn [nread advance].
    destruct (Only g Hg) as [->|Hp].
    + exists (length pre). split; [lia | exact Fl].
    + destruct (Fp g Hp) as [I|[H0|[H0|H0]]]; try discriminate.
      destruct (In_nth_error pre g I) as [j Hj].
      exists j. split; [|exact (R j g Hj)].
      assert (j < length pre)%nat by (apply nth_error_Some; congruence).
      lia.
Qed.

Lemma loadImage_slots_witness :
  slotsWellFormed planarImage /\
  (exists k l, advance threePass 3 = advance threePass (S k) /\
               feed threePass (k + nread threePass)%nat = Ok l /\
               IsLast l = true /\ holds planarImage l) /\
  (forall g, holds planarImage g ->
             exists j, (j + nread threePass < nread (advance threePass 3))%nat /\
                       feed threePass (j + nread threePass)%nat = Ok g).
Proof.
  exact (loadImage_slots 5 threePass planarImage (advance threePass 3) eq_refl).
Defined.

Lemma Permutation_three {A} (a b c : A) l :
  Permutation [a; b; c] l ->
  l = [a; b; c] \/ l = [a; c; b] \/ l = [b; a; c] \/
  l = [b; c; a] \/ l = [c; a; b] \/ l = [c; b; a].
Proof.
  intros P. pose proof (Permutation_length P) as Len.
  destruct l as [|x [|y [|z [|w l]]]]; try discriminate.
  assert (Two : forall p q, Permutation [b; c] [p; q] ->
                            (p = b /\ q = c) \/ (p = c /\ q = b)).
  { intros p q P2. destruct (Permutation_length_2_inv P2) as [E|E];
      inversion E; subst; tauto. }
  assert (I : In a [x; y; z]) by (apply (Permutation_in _ P); left; reflexivity).
  destruct I as [<-|[<-|[<-|[]]]].
  - apply Permutation_cons_inv in P. destruct (Two _ _ P) as [[-> ->]|[-> ->]]; tauto.
  - apply (Permutation_cons_app_inv [x] [z]) in P. cbn in P.
    destruct (Two _ _ P) as [[-> ->]|[-> ->]]; tauto.
  - apply (Permutation_cons_app_inv [x; y] []) in P. cbn in P.
    destruct (Two _ _ P) as [[-> ->]|[-> ->]]; tauto.
Qed.

(** A Red, a Green and a Blue frame, in any order, fill the three slots. *)
Lemma planes_any_order f1 f2 f3 r g b :
  Format r = FrameRed -> Format g = FrameGreen -> Format b = FrameBlue ->
  Permutation [r; g; b] [f1; f2; f3] ->
  assemble [f1; f2; f3] emptyImage = mkImage (Some r) (Some g) (Some b) /\
  Forall (fun f => recognized (Format f)) [f1; f2; f3].
Proof.
  intros Hr Hg Hb P. split.
  - destruct (assemble_three_pass r g b Hr Hg Hb) as (A1 & A2 & A3 & A4 & A5 & A6).
    destruct (Permutation_three r g b _ P) as [Q|[Q|[Q|[Q|[Q|Q]]]]];
      inversion Q; subst; assumption.
  - apply Forall_forall. intros f I.
    apply (Permutation_in _ (Permutation_sym P)) in I.
    unfold recognized. destruct I as [<-|[<-|[<-|[]]]]; tauto.
Qed.

(** X8. The planes of a three-pass page may arrive in any order: when
    the next three frames are a Red, a Green and a Blue frame in some
    order and only the third is marked last, [loadImage] returns the
    image with the Red frame in slot 0, the Green one in slot 1 and the
    Blue one in slot 2, after exactly three calls. *)
Theorem loadImage_three_pass c f1 f2 f3 r g b :
  reads c [f1; f2; f3] ->
  IsLast f1 = false -> IsLast f2 = false -> IsLast f3 = true ->
  Format r = FrameRed -> Format g = FrameGreen -> Format b = FrameBlue ->
  Permutation [r; g; b] [f1; f2; f3] ->
  forall fuel, (2 < fuel)%nat ->
    loadImage fuel c =
      Some (Ok (mkImage (Some r) (Some g) (Some b)), advance c 3).
Proof.
  intros R L1 L2 L3 Hr Hg Hb P fuel Hf.
  destruct (planes_any_order f1 f2 f3 r g b Hr Hg Hb P) as (A & Rec).
  inversion Rec as [|? ? R1 Rec2]; subst.
  inversion Rec2 as [|? ? R2 Rec3]; subst.
  inversion Rec3 as [|? ? R3 _]; subst.
  rewrite <- A.
  apply (loadImage_image c [f1; f2] f3 fuel); trivial.
  constructor; [split; assumption|].
  constructor; [split; assumption | constructor].
Qed.

Lemma loadImage_three_pass_witness :
  loadImage 3
    (device [Ok (bluePlane false); Ok (redPlane 8 false); Ok (greenPlane true)]) =
    Some (Ok (mkImage (Some (redPlane 8 false)) (Some (greenPlane true))
                      (Some (bluePlane false))),
          advance (device [Ok (bluePlane false); Ok (redPlane 8 false);
                           Ok (greenPlane true)]) 3).
Proof.
  apply (loadImage_three_pass _ (bluePlane false) (redPlane 8 false) (greenPlane true)
           (redPlane 8 false) (greenPlane true) (bluePlane false)).
  - intros [|[|[|j]]] f E; cbn in E; try (inversion E; subst; reflexivity).
    destruct j; discriminate.
  - reflexivity.
  - reflexivity.
  - reflexivity.
  - reflexivity.
  - reflexivity.
  - reflexivity.
  - apply Permutation_sym.
    apply perm_trans with [redPlane 8 false; bluePlane false; greenPlane true].
    + apply perm_swap.
    + apply perm_skip. apply perm_swap.
  - lia.
Defined.

(* ===================================================================== *)
(** * Further properties of the acquisition strategies *)

(** The outcome of an assembler call does not depend on the fuel. *)
Lemma loads_fun c r1 c1 r2 c2 :
  loads c r1 c1 -> loads c r2 c2 -> r1 = r2 /\ c1 = c2.
Proof.
  intros [n1 L1] [n2 L2].
  pose proof (loads_mono c r1 c1 n1 (Nat.max n1 n2) L1 (Nat.le_max_l _ _)) as E1.
  pose proof (loads_mono c r2 c2 n2 (Nat.max n1 n2) L2 (Nat.le_max_r _ _)) as E2.
  rewrite E1 in E2. inversion E2. split; reflexivity.
Qed.

Lemma ReadAvailableImages_loop_inv fuel : forall c acc r c',
  ReadAvailableImages_loop fuel c acc = Some (r, c') ->
  exists ms c1 e,
    pages c ms c1 /\ loads c1 (Err e) c' /\
    r = if isErrEmpty e && (0 <? Z.of_nat (length (acc ++ ms)))
        then Ok (acc ++ ms) else Err e.
Proof.
  induction fuel as [|fuel IH]; intros c acc r c' E; [discriminate|].
  cbn [ReadAvailableImages_loop] in E.
  destruct (loadImage (S fuel) c) as [[[m|e] c1]|] eqn:L; [| |discriminate].
  - destruct (IH _ _ _ _ E) as (ms & c2 & e & Hp & Hl & ->).
    exists (m :: ms), c2, e. split; [|split; [exact Hl|]].
    + apply pages_cons with (c1 := c1); [exists (S fuel); exact L | exact Hp].
    + rewrite <- app_assoc. reflexivity.
  - exists [], c, e. rewrite app_nil_r.
    assert (c1 = c') as ->.
    { destruct (isErrEmpty e && (0 <? Z.of_nat (length acc)));
        inversion E; reflexivity. }
    split; [apply pages_nil|]. split; [exists (S fuel); exact L|].
    destruct (isErrEmpty e && (0 <? Z.of_nat (length acc)));
      inversion E; reflexivity.
Qed.

Lemma ReadAvailableImages_inv fuel c r c' :
  ReadAvailableImages fuel c = Some (r, c') ->
  exists ms c1 e c2,
    pages c ms c1 /\ loads c1 (Err e) c2 /\ c' = Cancel c2 /\
    ((r = Ok ms /\ ms <> [] /\ e = Status ErrEmpty) \/
     (r = Err e /\ (ms = [] \/ e <> Status ErrEmpty))).
Proof.
  intros E. unfold ReadAvailableImages in E.
  destruct (ReadAvailableImages_loop fuel c []) as [[r1 c2]|] eqn:L;
    [|discriminate].
  inversion E; subst.
  destruct (ReadAvailableImages_loop_inv _ _ _ _ _ L) as (ms & c1 & e & Hp & Hl & ->).
  exists ms, c1, e, c2. repeat split; trivial. cbn [app].
  destruct ms as [|m ms].
  - right. rewrite andb_false_r. tauto.
  - destruct (isErrEmpty e) eqn:IE; cbn.
    + left. repeat split; [discriminate|]. now apply isErrEmpty_true.
    + right. split; [reflexivity|]. right. intros ->. discriminate.
Qed.

(** X9. Whenever [ReadAvailableImages] returns: the assembler calls
    yielded some images and then one failure, and [Cancel] was called
    after it.  A returned list is exactly these images, it is never
    empty, and the failure was [ErrEmpty]; a returned error is that
    failure, and then either no image had been read or the failure was
    not [ErrEmpty]. *)
Theorem ReadAvailableImages_inversion fuel c r c' :
  ReadAvailableImages fuel c = Some (r, c') ->
  (exists ms c1 e c2,
     pages c ms c1 /\ loads c1 (Err e) c2 /\ c' = Cancel c2 /\
     ((r = Ok ms /\ ms <> [] /\ e = Status ErrEmpty) \/
      (r = Err e /\ (ms = [] \/ e <> Status ErrEmpty)))) /\
  r <> Ok [].
Proof.
  intros E. pose proof (ReadAvailableImages_inv fuel c r c' E) as Inv.
  split; [exact Inv|].
  destruct Inv as (ms & c1 & e & c2 & _ & _ & _ & [(-> & NE & _)|(-> & _)]).
  - intros Q. inversion Q. contradiction.
  - discriminate.
Qed.

Lemma ReadAvailableImages_inversion_witness :
  (exists ms c1 e c2,
     pages feeder2 ms c1 /\ loads c1 (Err e) c2 /\
     Cancel (advance feeder2 3) = Cancel c2 /\
     ((Ok [grayImage; rgbImage] = Ok ms /\ ms <> [] /\ e = Status ErrEmpty) \/
      (Ok [grayImage; rgbImage] = Err e /\ (ms = [] \/ e <> Status ErrEmpty)))) /\
  Ok [grayImage; rgbImage] <> Ok [].
Proof.
  exact (ReadAvailableImages_inversion 3 feeder2 (Ok [grayImage; rgbImage])
           (Cancel (advance feeder2 3)) eq_refl).
Defined.

Section InversionFacts.

Variable H : Type.
Variable process : Image -> H -> option error * H.

Lemma ContinuousRead_loop_inv fuel : forall c m h r c' h',
  ContinuousRead_loop process fuel c m h = Some (r, c', h') ->
  (exists ms pre mk h1 e,
     pages c ms c' /\ m :: ms = pre ++ [mk] /\
     handAll process pre h = (None, h1) /\ process mk h1 = (Some e, h') /\
     r = Some e) \/
  (exists ms c1 e,
     pages c ms c1 /\ handAll process (m :: ms) h = (None, h') /\
     loads c1 (Err e) c' /\ r = if isErrEmpty e then None else Some e).
Proof.
  induction fuel as [|fuel IH]; intros c m h r c' h' E; [discriminate|].
  cbn [ContinuousRead_loop] in E.
  destruct (process m h) as [[e0|] hm] eqn:P.
  { inversion E; subst. left. exists [], [], m, h, e0.
    repeat split; [apply pages_nil | exact P]. }
  destruct (loadImage (S fuel) c) as [[[m'|e] c1]|] eqn:L; [| |discriminate].
  - destruct (IH _ _ _ _ _ _ E)
      as [(ms & pre & mk & h1 & e & Hp & Eq & HA & PF & ->)|
          (ms & c2 & e & Hp & HA & Hl & ->)].
    + left. exists (m' :: ms), (m :: pre), mk, h1, e.
      repeat split; trivial.
      * apply pages_cons with (c1 := c1); [exists (S fuel); exact L | exact Hp].
      * cbn. rewrite Eq. reflexivity.
      * cbn. rewrite P. exact HA.
    + right. exists (m' :: ms), c2, e.
      repeat split; trivial.
      * apply pages_cons with (c1 := c1); [exists (S fuel); exact L | exact Hp].
      * cbn [handAll]. rewrite P. exact HA.
  - right. exists [], c, e.
    assert (c1 = c' /\ hm = h' /\ r = if isErrEmpty e then None else Some e)
      as (-> & -> & ->).
    { destruct (isErrEmpty e); inversion E; repeat split. }
    repeat split; [apply pages_nil | cbn; rewrite P; reflexivity |].
    exists (S fuel). exact L.
Qed.

Lemma ContinuousRead_inv fuel c h r c' h' :
  ContinuousRead process fuel c h = Some (r, c', h') ->
  (exists e c2,
     loads c (Err e) c2 /\ r = Some e /\ c' = Cancel c2 /\ h' = h) \/
  (exists pre mk c1 h1 e,
     pages c (pre ++ [mk]) c1 /\ handAll process pre h = (None, h1) /\
     process mk h1 = (Some e, h') /\ r = Some e /\ c' = Cancel c1) \/
  (exists ms c1 e c2,
     ms <> [] /\ pages c ms c1 /\ handAll process ms h = (None, h') /\
     loads c1 (Err e) c2 /\ c' = Cancel c2 /\
     r = if isErrEmpty e then None else Some e).
Proof.
  intros E. unfold ContinuousRead in E.
  destruct (loadImage fuel c) as [[[m|e] c1]|] eqn:L; [| |discriminate].
  - destruct (ContinuousRead_loop process fuel c1 m h) as [[[r2 c2] h2]|] eqn:Loop;
      [|discriminate].
    inversion E; subst.
    destruct (ContinuousRead_loop_inv _ _ _ _ _ _ _ Loop)
      as [(ms & pre & mk & h1 & e & Hp & Eq & HA & PF & ->)|
          (ms & c3 & e & Hp & HA & Hl & ->)].
    + right. left. exists pre, mk, c2, h1, e. repeat split; trivial.
      rewrite <- Eq.
      apply pages_cons with (c1 := c1); [exists fuel; exact L | exact Hp].
    + right. right. exists (m :: ms), c3, e, c2.
      repeat split; trivial; [discriminate|].
      apply pages_cons with (c1 := c1); [exists fuel; exact L | exact Hp].
  - inversion E; subst. left. exists e, c1.
    repeat split. exists fuel. exact L.
Qed.

End InversionFacts.

(** X10. Whenever [ContinuousRead] returns, one of three things
    happened: the first fetch failed, and its error is returned with the
    handler untouched; or the handler accepted some pages and failed on
    the next, and its error is returned with nothing read after that
    page; or the handler accepted at least one page, all those fetched,
    and the next fetch failed, which gives no error for [ErrEmpty] and
    that error otherwise.  So a nil error means the handler accepted at
    least one page and the tray then was empty. *)
Theorem ContinuousRead_inversion H (process : Image -> H -> option error * H)
        fuel c h r c' h' :
  ContinuousRead process fuel c h = Some (r, c', h') ->
  ((exists e c2,
      loads c (Err e) c2 /\ r = Some e /\ c' = Cancel c2 /\ h' = h) \/
   (exists pre mk c1 h1 e,
      pages c (pre ++ [mk]) c1 /\ handAll process pre h = (None, h1) /\
      process mk h1 = (Some e, h') /\ r = Some e /\ c' = Cancel c1) \/
   (exists ms c1 e c2,
      ms <> [] /\ pages c ms c1 /\ handAll process ms h = (None, h') /\
      loads c1 (Err e) c2 /\ c' = Cancel c2 /\
      r = if isErrEmpty e then None else Some e)) /\
  (r = None ->
   exists ms c1 c2,
     ms <> [] /\ pages c ms c1 /\ handAll process ms h = (None, h') /\
     loads c1 (Err (Status ErrEmpty)) c2 /\ c' = Cancel c2).
Proof.
  intros E. pose proof (ContinuousRead_inv H process fuel c h r c' h' E) as Inv.
  split; [exact Inv|]. intros ->.
  destruct Inv as [(e & c2 & _ & Q & _)|[(pre & mk & c1 & h1 & e & _ & _ & _ & Q & _)|
                   (ms & c1 & e & c2 & NE & Hp & HA & Hl & -> & Q)]];
    try discriminate.
  destruct (isErrEmpty e) eqn:IE; [|discriminate].
  apply isErrEmpty_true in IE. subst e.
  exists ms, c1, c2. repeat split; assumption.
Qed.

Lemma ContinuousRead_inversion_witness :
  exists ms c1 c2,
    ms <> [] /\ pages feeder2 ms c1 /\
    handAll recorder ms [] = (None, [grayImage; rgbImage]) /\
    loads c1 (Err (Status ErrEmpty)) c2 /\
    Cancel (advance feeder2 3) = Cancel c2.
Proof.
  destruct (ContinuousRead_inversion _ recorder 3 feeder2 [] None
              (Cancel (advance feeder2 3)) [grayImage; rgbImage] eq_refl)
    as (_ & Nil).
  exact (Nil eq_refl).
Defined.

(** X11. [ReadAvailableImages] and [ContinuousRead] with a handler that
    never fails end alike: whenever the former returns, the latter
    returns the same error or none where the former returned a list,
    leaves the connection in the same state, and has handed the handler
    exactly the images the assembler calls yielded, in order.  These are
    the returned list on success; on a failure after some pages they are
    the pages that [ReadAvailableImages] read and dropped. *)
Theorem strategies_agree H (process : Image -> H -> option error * H)
        fuel c h r c' :
  (forall m h, fst (process m h) = None) ->
  ReadAvailableImages fuel c = Some (r, c') ->
  exists ms c1 e c2 fuel0,
    pages c ms c1 /\ loads c1 (Err e) c2 /\
    (forall ms', r = Ok ms' -> ms' = ms) /\
    forall fuel', (fuel0 <= fuel')%nat ->
      ContinuousRead process fuel' c h =
        Some (errorOf r, c', fold_left (fun h m => snd (process m h)) ms h).
Proof.
  intros Always E.
  destruct (ReadAvailableImages_inv fuel c r c' E)
    as (ms & c1 & e & c2 & Hp & Hl & -> & Res).
  destruct ms as [|m ms].
  - assert (r = Err e) as ->.
    { destruct Res as [(_ & NE & _)|(-> & _)]; [contradiction | reflexivity]. }
    inversion Hp; subst.
    destruct (ContinuousRead_first_fails H process c1 h e c2 Hl) as [fuel0 Run].
    exists [], c1, e, c2, fuel0.
    split; [apply pages_nil|]. split; [exact Hl|].
    split; [discriminate | exact Run].
  - destruct (ContinuousRead_run H process c h (m :: ms) c1 e c2
                (fold_left (fun h m => snd (process m h)) (m :: ms) h))
      as [fuel0 Run]; trivial; [discriminate | now apply handAll_always|].
    exists (m :: ms), c1, e, c2, fuel0.
    split; [exact Hp|]. split; [exact Hl|]. split.
    + intros ms' Q. destruct Res as [(-> & _)|(-> & _)]; [|discriminate].
      inversion Q. reflexivity.
    + intros fuel' Hf. rewrite (Run fuel' Hf).
      destruct Res as [(-> & _ & ->)|(-> & [Q|NE])]; [reflexivity|discriminate|].
      rewrite (isErrEmpty_false e NE). reflexivity.
Qed.

Lemma strategies_agree_witness :
  exists ms c1 e c2 fuel0,
    pages jammedAfter1 ms c1 /\ loads c1 (Err e) c2 /\
    (forall ms', Err (Status ErrJammed) = Ok ms' -> ms' = ms) /\
    forall fuel', (fuel0 <= fuel')%nat ->
      ContinuousRead recorder fuel' jammedAfter1 [] =
        Some (Some (Status ErrJammed), Cancel (advance jammedAfter1 2),
              fold_left (fun h m => snd (recorder m h)) ms []).
Proof.
  apply (strategies_agree _ recorder 2 jammedAfter1 [] (Err (Status ErrJammed))
           (Cancel (advance jammedAfter1 2))).
  - reflexivity.
  - reflexivity.
Defined.

(** X12. The three strategies start alike.  When [ReadImage] fails, the
    other two fail with the same error and leave the connection in the
    same state, the handler not having been invoked.  When [ReadImage]
    returns an image, that image is the first of any list
    [ReadAvailableImages] returns and the first page handed to the
    handler of [ContinuousRead]. *)
Theorem strategies_first_page fuel c :
  (forall e c',
     ReadImage fuel c = Some (Err e, c') ->
     forall fuel', (fuel <= fuel')%nat ->
       ReadAvailableImages fuel' c = Some (Err e, c') /\
       forall H (process : Image -> H -> option error * H) h,
         ContinuousRead process fuel' c h = Some (Some e, c', h)) /\
  (forall m c',
     ReadImage fuel c = Some (Ok m, c') ->
     (forall fuel' ms c'',
        ReadAvailableImages fuel' c = Some (Ok ms, c'') ->
        exists rest, ms = m :: rest) /\
     (forall fuel' r c'' ms,
        ContinuousRead recorder fuel' c [] = Some (r, c'', ms) ->
        exists rest, ms = m :: rest)).
Proof.
  split.
  - intros e c' E fuel' Hf. unfold ReadImage in E.
    destruct (loadImage fuel c) as [[r1 c1]|] eqn:L; [|discriminate].
    inversion E; subst.
    pose proof (loads_mono c _ _ fuel fuel' L Hf) as L'.
    split.
    + unfold ReadAvailableImages. destruct fuel' as [|n]; [discriminate|].
      cbn [ReadAvailableImages_loop]. rewrite L'. rewrite andb_false_r.
      reflexivity.
    + intros H process h. unfold ContinuousRead. rewrite L'. reflexivity.
  - intros m c' E. unfold ReadImage in E.
    destruct (loadImage fuel c) as [[r1 c1]|] eqn:L; [|discriminate].
    inversion E; subst.
    assert (First : forall ms c2, ms <> [] -> pages c ms c2 ->
                                  exists rest, ms = m :: rest).
    { intros ms c2 NE Hp. destruct Hp as [|c m' c3 ms c2 L' Hp]; [contradiction|].
      destruct (loads_fun c (Ok m) c1 (Ok m') c3) as [Q _];
        [exists fuel; exact L | exact L'|].
      inversion Q. eauto. }
    split.
    + intros fuel' ms c'' E'.
      destruct (ReadAvailableImages_inv fuel' c _ _ E')
        as (ms' & c2 & e & c3 & Hp & _ & _ & [(Q & NE & _)|(Q & _)]);
        [|discriminate].
      inversion Q; subst. exact (First _ c2 NE Hp).
    + intros fuel' r c'' ms E'.
      destruct (ContinuousRead_inv _ recorder fuel' c [] r c'' ms E')
        as [(e & c2 & Hl & _)|[(pre & mk & c2 & h1 & e & _ & _ & PF & _)|
            (ms' & c2 & e & c3 & NE & Hp & HA & _)]].
      * destruct (loads_fun c (Ok m) c1 (Err e) c2) as [Q _];
          [exists fuel; exact L | exact Hl | discriminate].
      * discriminate.
      * rewrite handAll_always in HA by reflexivity.
        rewrite fold_recorder in HA. inversion HA; subst.
        exact (First _ c2 NE Hp).
Qed.

Lemma strategies_first_page_witness :
  (ReadAvailableImages 1 emptyTray =
     Some (Err (Status ErrEmpty), Cancel (advance emptyTray 1)) /\
   forall H (process : Image -> H -> option error * H) h,
     ContinuousRead process 1 emptyTray h =
       Some (Some (Status ErrEmpty), Cancel (advance emptyTray 1), h)) /\
  (exists rest, [grayImage; rgbImage] = grayImage :: rest).
Proof.
  destruct (strategies_first_page 1 emptyTray) as (Fail & _).
  destruct (strategies_first_page 1 feeder2) as (_ & First).
  split.
  - apply (Fail (Status ErrEmpty) (Cancel (advance emptyTray 1)) eq_refl).
    lia.
  - destruct (First grayImage (Cancel (advance feeder2 1)) eq_refl) as (InList & _).
    apply (InList 3%nat [grayImage; rgbImage] (Cancel (advance feeder2 3))).
    reflexivity.
Defined.

(* ===================================================================== *)
(** * The checks of the tests *)

Lemma Color_eqb_eq c1 c2 : Color_eqb c1 c2 = true <-> c1 = c2.
Proof.
  split.
  - destruct c1, c2; cbn; intros E; try discriminate;
      rewrite ?andb_true_iff, ?Z.eqb_eq in E.
    + destruct E as [[[-> ->] ->] ->]. reflexivity.
    + destruct E as [[[-> ->] ->] ->]. reflexivity.
    + subst. reflexivity.
    + subst. reflexivity.
  - intros <-. destruct c1; cbn; rewrite ?Z.eqb_refl; reflexivity.
Qed.

Lemma In_upto n x : In x (upto n) <-> 0 <= x < n.
Proof.
  unfold upto. rewrite in_map_iff. split.
  - intros (k & <- & I). apply in_seq in I. lia.
  - intros Hx. exists (Z.to_nat x). split; [lia|]. apply in_seq. lia.
Qed.

Lemma Rect_max w h :
  MinX (Rect 0 0 w h) = Z.min 0 w /\ MinY (Rect 0 0 w h) = Z.min 0 h /\
  MaxX (Rect 0 0 w h) = Z.max 0 w /\ MaxY (Rect 0 0 w h) = Z.max 0 h.
Proof.
  unfold Rect.
  destruct (Z.gtb_spec 0 w); destruct (Z.gtb_spec 0 h); cbn; lia.
Qed.

Lemma badBounds_Rect w h :
  badBounds (Rect 0 0 w h) = false <-> 0 < w /\ 0 < h.
Proof.
  unfold badBounds. destruct (Rect_max w h) as (-> & -> & -> & ->).
  rewrite !orb_false_iff, !negb_false_iff, !Z.eqb_eq, !Z.leb_gt. lia.
Qed.

Lemma checkColumn_true expected m x ys :
  checkColumn expected m x ys = Returns true <->
  forall y, In y ys -> At m x y = Returns (expected x y).
Proof.
  induction ys as [|y ys IH]; cbn [checkColumn].
  - split; [intros _ y [] | reflexivity].
  - destruct (At m x y) as [col|] eqn:A; cbn [obind].
    + destruct (Color_eqb col (expected x y)) eqn:Q.
      * apply Color_eqb_eq in Q. subst col. rewrite IH. split.
        -- intros Hall y' [<-|I]; [exact A | now apply Hall].
        -- intros Hall y' I. apply Hall. now right.
      * split; [discriminate|]. intros Hall.
        specialize (Hall y (or_introl eq_refl)). rewrite A in Hall.
        inversion Hall; subst.
        assert (Color_eqb (expected x y) (expected x y) = true)
          by now apply Color_eqb_eq.
        congruence.
    + split; [discriminate|]. intros Hall.
      specialize (Hall y (or_introl eq_refl)). rewrite A in Hall. discriminate.
Qed.

Lemma checkRows_true expected m xs ys :
  checkRows expected m xs ys = Returns true <->
  forall x y, In x xs -> In y ys -> At m x y = Returns (expected x y).
Proof.
  induction xs as [|x xs IH]; cbn [checkRows].
  - split; [intros _ x y [] | reflexivity].
  - destruct (checkColumn expected m x ys) as [[|]|] eqn:Col; cbn [obind].
    + pose proof (proj1 (checkColumn_true expected m x ys) Col) as Col'.
      rewrite IH. split.
      * intros Hall x' y [<-|I] Iy; [now apply Col' | now apply Hall].
      * intros Hall x' y I Iy. apply Hall; [now right | exact Iy].
    + split; [discriminate|]. intros Hall.
      assert (checkColumn expected m x ys = Returns true) as Q.
      { apply checkColumn_true. intros y Iy. apply Hall; [now left | exact Iy]. }
      congruence.
    + split; [discriminate|]. intros Hall.
      assert (checkColumn expected m x ys = Returns true) as Q.
      { apply checkColumn_true. intros y Iy. apply Hall; [now left | exact Iy]. }
      congruence.
Qed.

Lemma checkColumn_ext expected m m' x ys :
  (forall y, In y ys -> At m x y = At m' x y) ->
  checkColumn expected m x ys = checkColumn expected m' x ys.
Proof.
  induction ys as [|y ys IH]; intros Same; [reflexivity|].
  cbn [checkColumn]. rewrite <- (Same y (or_introl eq_refl)).
  rewrite IH; [reflexivity|]. intros y' I. apply Same. now right.
Qed.

Lemma checkRows_ext expected m m' xs ys :
  (forall x y, In x xs -> In y ys -> At m x y = At m' x y) ->
  checkRows expected m xs ys = checkRows expected m' xs ys.
Proof.
  induction xs as [|x xs IH]; intros Same; [reflexivity|].
  cbn [checkRows].
  rewrite (checkColumn_ext expected m m' x ys)
    by (intros y I; apply Same; [now left | exact I]).
  rewrite IH; [reflexivity|]. intros x' y I Iy. apply Same; [now right | exact Iy].
Qed.

(** The loops of the two checks run over the in-bounds coordinates. *)
Lemma check_grid f x y :
  In x (upto (MaxX (Rect 0 0 (Width f) (Height f)))) /\
  In y (upto (MaxY (Rect 0 0 (Width f) (Height f)))) <-> inBounds f x y.
Proof.
  destruct (Rect_max (Width f) (Height f)) as (_ & _ & -> & ->).
  rewrite !In_upto. unfold inBounds. lia.
Qed.

Lemma check_loops expected m f :
  fs0 m = Some f ->
  (checkRows expected m (upto (MaxX (Rect 0 0 (Width f) (Height f))))
                        (upto (MaxY (Rect 0 0 (Width f) (Height f))))
   = Returns true <->
   forall x y, inBounds f x y -> At m x y = Returns (expected x y)).
Proof.
  intros H0. rewrite checkRows_true. split.
  - intros Hall x y HB. apply check_grid in HB. now apply Hall.
  - intros Hall x y Ix Iy. apply Hall. apply check_grid. tauto.
Qed.

(** X13. [readImage] after a [ReadImage] call that returned an image:
    it panics when the primary slot is nil, fails the test when the
    width or the height of the primary frame is not positive, and hands
    the image back otherwise.  After a [ReadImage] call that returned an
    error it fails the test. *)
Theorem readImage_outcomes fuel c c' :
  (forall e, ReadImage fuel c = Some (Err e, c') ->
             readImage fuel c = Some (Returns None, c')) /\
  (forall m, ReadImage fuel c = Some (Ok m, c') ->
     (fs0 m = None -> readImage fuel c = Some (Panics, c')) /\
     (forall f, fs0 m = Some f ->
        (0 < Width f /\ 0 < Height f ->
         readImage fuel c = Some (Returns (Some m), c')) /\
        (Width f <= 0 \/ Height f <= 0 ->
         readImage fuel c = Some (Returns None, c')))).
Proof.
  split.
  - intros e E. unfold readImage. rewrite E. reflexivity.
  - intros m E. unfold readImage. rewrite E. unfold Bounds. split.
    + intros ->. reflexivity.
    + intros f ->. cbn [deref obind].
      destruct (badBounds (Rect 0 0 (Width f) (Height f))) eqn:B.
      * split; [|reflexivity]. intros HP. apply badBounds_Rect in HP. congruence.
      * split; [reflexivity|]. intros HN. apply badBounds_Rect in B. lia.
Qed.

Lemma readImage_outcomes_witness :
  readImage 1 emptyTray = Some (Returns None, Cancel (advance emptyTray 1)) /\
  readImage 1 greenOnly = Some (Panics, Cancel (advance greenOnly 1)) /\
  readImage 1 feeder2 = Some (Returns (Some grayImage), Cancel (advance feeder2 1)) /\
  readImage 1 (device [Ok (mkFrame FrameGray (-4) 3 8 true ramp)]) =
    Some (Returns None,
          Cancel (advance (device [Ok (mkFrame FrameGray (-4) 3 8 true ramp)]) 1)).
Proof.
  destruct (readImage_outcomes 1 emptyTray (Cancel (advance emptyTray 1)))
    as (Failed & _).
  destruct (readImage_outcomes 1 greenOnly (Cancel (advance greenOnly 1)))
    as (_ & NoPrimary).
  destruct (readImage_outcomes 1 feeder2 (Cancel (advance feeder2 1)))
    as (_ & Good).
  destruct (readImage_outcomes 1 (device [Ok (mkFrame FrameGray (-4) 3 8 true ramp)])
              (Cancel (advance (device [Ok (mkFrame FrameGray (-4) 3 8 true ramp)]) 1)))
    as (_ & Bad).
  split; [exact (Failed (Status ErrEmpty) eq_refl)|].
  split; [exact (proj1 (NoPrimary greenOnlyImage eq_refl) eq_refl)|].
  split.
  - apply (proj2 (Good grayImage eq_refl) (grayPage 8) eq_refl). cbn. lia.
  - apply (proj2 (Bad (mkImage (Some (mkFrame FrameGray (-4) 3 8 true ramp)) None None)
                      eq_refl) (mkFrame FrameGray (-4) 3 8 true ramp) eq_refl).
    cbn. lia.
Defined.

(** X14. On an image with a primary frame, [checkGray] lets the test go
    on exactly when the colour model is the 8-bit gray one and [At] gives
    the expected gray pixel at every in-bounds coordinate; [checkColor]
    exactly when the model is the 8-bit RGBA one and [At] gives the
    expected colour pixel at every in-bounds coordinate.  So [checkGray]
    fails every image that is not Gray or has depth 16, and [checkColor]
    every image that is Gray or has depth 16. *)
Theorem check_accepts m f :
  fs0 m = Some f ->
  (checkGray m = Returns true <->
   ColorModel m = Returns GrayModel /\
   forall x y, inBounds f x y -> At m x y = Returns (expectedGray x y)) /\
  (checkColor m = Returns true <->
   ColorModel m = Returns RGBAModel /\
   forall x y, inBounds f x y -> At m x y = Returns (expectedColor x y)) /\
  (Format f <> FrameGray \/ Depth f = 16 -> checkGray m = Returns false) /\
  (Format f = FrameGray \/ Depth f = 16 -> checkColor m = Returns false).
Proof.
  intros H0. unfold checkGray, checkColor, Bounds.
  rewrite (ColorModel_value m f H0), H0. cbn [deref obind].
  split; [|split; [|split]].
  - destruct (Format f =? FrameGray); destruct (Depth f =? 16); cbn [Model_eqb negb];
      try (split; [discriminate | intros [Q _]; discriminate]).
    rewrite (check_loops expectedGray m f H0). tauto.
  - destruct (Format f =? FrameGray); destruct (Depth f =? 16); cbn [Model_eqb negb];
      try (split; [discriminate | intros [Q _]; discriminate]).
    rewrite (check_loops expectedColor m f H0). tauto.
  - intros [NG|D16].
    + destruct (Z.eqb_spec (Format f) FrameGray); [contradiction|].
      destruct (Depth f =? 16); reflexivity.
    + rewrite D16. destruct (Format f =? FrameGray); reflexivity.
  - intros [G|D16].
    + rewrite G. destruct (Depth f =? 16); reflexivity.
    + rewrite D16. destruct (Format f =? FrameGray); reflexivity.
Qed.

Lemma check_accepts_witness :
  (ColorModel (mkImage (Some (testGray 12 7)) None None) = Returns GrayModel /\
   forall x y, inBounds (testGray 12 7) x y ->
               At (mkImage (Some (testGray 12 7)) None None) x y =
                 Returns (expectedGray x y)) /\
  checkGray rgbImage = Returns false /\
  checkColor grayImage = Returns false.
Proof.
  destruct (check_accepts (mkImage (Some (testGray 12 7)) None None)
                          (testGray 12 7) eq_refl) as (Gray_ & _).
  destruct (check_accepts rgbImage rgbPage eq_refl) as (_ & _ & NotGray & _).
  destruct (check_accepts grayImage (grayPage 8) eq_refl) as (_ & _ & _ & NotColor).
  split; [apply Gray_; vm_compute; reflexivity|].
  split; [apply NotGray; left; discriminate|].
  apply NotColor. left. reflexivity.
Defined.

(** After one frame marked last and of recognized format, [ReadImage]
    returns the image that holds just this frame. *)
Lemma ReadImage_single fuel c f :
  feed c (nread c) = Ok f -> IsLast f = true -> recognized (Format f) ->
  (0 < fuel)%nat ->
  ReadImage fuel c = Some (Ok (assemble [f] emptyImage), Cancel (advance c 1)).
Proof.
  intros F L R Hf. unfold ReadImage.
  assert (Rd : reads c ([] ++ [f])).
  { intros [|[|j]] g G; cbn in G; try discriminate. inversion G; subst. exact F. }
  rewrite (loadImage_image c [] f fuel Rd (Forall_nil _) R L Hf). reflexivity.
Qed.

(** X15. The bodies of the gray, colour and three-pass tests succeed on
    a device that delivers the test picture.  When the device delivers
    one last Gray frame of depth 8 and positive size whose samples are
    the expected gray pixels, [readImage] hands back an image on which
    [checkGray] lets the test go on; likewise for one last Rgb frame and
    [checkColor]; and likewise for a Red, a Green and a Blue plane
    delivered in any order, the third one marked last. *)
Theorem tests_pass c :
  (forall f,
     feed c (nread c) = Ok f -> IsLast f = true ->
     Format f = FrameGray -> Depth f = 8 -> 0 < Width f -> 0 < Height f ->
     (forall x y, inBounds f x y ->
                  Gray (uint8 (sample f x y 0)) = expectedGray x y) ->
     forall fuel, (0 < fuel)%nat ->
       exists m, readImage fuel c = Some (Returns (Some m), Cancel (advance c 1)) /\
                 checkGray m = Returns true) /\
  (forall f,
     feed c (nread c) = Ok f -> IsLast f = true ->
     Format f = FrameRgb -> Depth f = 8 -> 0 < Width f -> 0 < Height f ->
     (forall x y, inBounds f x y ->
                  RGBA (uint8 (sample f x y 0)) (uint8 (sample f x y 1))
                       (uint8 (sample f x y 2)) 255 = expectedColor x y) ->
     forall fuel, (0 < fuel)%nat ->
       exists m, readImage fuel c = Some (Returns (Some m), Cancel (advance c 1)) /\
                 checkColor m = Returns true) /\
  (forall f1 f2 f3 r g b,
     reads c [f1; f2; f3] ->
     IsLast f1 = false -> IsLast f2 = false -> IsLast f3 = true ->
     Format r = FrameRed -> Format g = FrameGreen -> Format b = FrameBlue ->
     Permutation [r; g; b] [f1; f2; f3] ->
     Depth r = 8 -> 0 < Width r -> 0 < Height r ->
     (forall x y, inBounds r x y ->
                  RGBA (uint8 (sample r x y 0)) (uint8 (sample g x y 0))
                       (uint8 (sample b x y 0)) 255 = expectedColor x y) ->
     forall fuel, (2 < fuel)%nat ->
       exists m, readImage fuel c = Some (Returns (Some m), Cancel (advance c 3)) /\
                 checkColor m = Returns true).
Proof.
  assert (Read : forall m f c' fuel,
             ReadImage fuel c = Some (Ok m, c') -> fs0 m = Some f ->
             0 < Width f -> 0 < Height f ->
             readImage fuel c = Some (Returns (Some m), c')).
  { intros m f c' fuel E H0 W Ht. unfold readImage, Bounds. rewrite E, H0.
    cbn [deref obind].
    destruct (badBounds (Rect 0 0 (Width f) (Height f))) eqn:B; [|reflexivity].
    assert (badBounds (Rect 0 0 (Width f) (Height f)) = false)
      by (apply badBounds_Rect; lia).
    congruence. }
  split; [|split].
  - intros f F L HF D W Ht Pic fuel Hf.
    assert (S0 : assemble [f] emptyImage = mkImage (Some f) None None).
    { unfold assemble, storeFrame. cbn [fold_left]. rewrite HF. reflexivity. }
    exists (mkImage (Some f) None None). split.
    + apply (Read (mkImage (Some f) None None) f); trivial. rewrite <- S0.
      apply ReadImage_single; trivial. unfold recognized. tauto.
    + unfold checkGray, Bounds.
      rewrite (ColorModel_value (mkImage (Some f) None None) f eq_refl). cbn [fs0 deref obind].
      rewrite HF, D. cbn [Z.eqb Pos.eqb FrameGray Model_eqb negb].
      apply (check_loops expectedGray (mkImage (Some f) None None) f eq_refl). intros x y HB.
      rewrite (At_inBounds (mkImage (Some f) None None) f x y eq_refl HB), HF, D. cbn [Z.eqb Pos.eqb FrameGray].
      f_equal. now apply Pic.
  - intros f F L HF D W Ht Pic fuel Hf.
    assert (S0 : assemble [f] emptyImage = mkImage (Some f) None None).
    { unfold assemble, storeFrame. cbn [fold_left]. rewrite HF. reflexivity. }
    exists (mkImage (Some f) None None). split.
    + apply (Read (mkImage (Some f) None None) f); trivial. rewrite <- S0.
      apply ReadImage_single; trivial. unfold recognized. tauto.
    + unfold checkColor, Bounds.
      rewrite (ColorModel_value (mkImage (Some f) None None) f eq_refl). cbn [fs0 deref obind].
      rewrite HF, D. cbn [Z.eqb Pos.eqb FrameGray FrameRgb Model_eqb negb].
      apply (check_loops expectedColor (mkImage (Some f) None None) f eq_refl). intros x y HB.
      rewrite (At_interleaved (mkImage (Some f) None None) f x y eq_refl HF HB), D.
      f_equal. now apply Pic.
  - intros f1 f2 f3 r g b R L1 L2 L3 Hr Hg Hb P D W Ht Pic fuel Hf.
    destruct (planes_any_order f1 f2 f3 r g b Hr Hg Hb P) as (A & Rec).
    inversion Rec as [|? ? R1 Rec2]; subst.
    inversion Rec2 as [|? ? R2 Rec3]; subst.
    inversion Rec3 as [|? ? R3 _]; subst.
    exists (mkImage (Some r) (Some g) (Some b)). split.
    + apply (Read (mkImage (Some r) (Some g) (Some b)) r); trivial. unfold ReadImage.
      rewrite (loadImage_image c [f1; f2] f3 fuel); trivial.
      * cbn [app length]. rewrite A. reflexivity.
      * constructor; [split; assumption|].
        constructor; [split; assumption | constructor].
    + unfold checkColor, Bounds.
      rewrite (ColorModel_value (mkImage (Some r) (Some g) (Some b)) r eq_refl). cbn [fs0 deref obind].
      rewrite Hr, D. cbn [Z.eqb Pos.eqb FrameGray FrameRed Model_eqb negb].
      apply (check_loops expectedColor (mkImage (Some r) (Some g) (Some b)) r eq_refl). intros x y HB.
      rewrite (At_planar (mkImage (Some r) (Some g) (Some b)) r g b x y eq_refl eq_refl eq_refl); trivial;
        try (rewrite Hr; discriminate).
      rewrite D. f_equal. now apply Pic.
Qed.

Lemma uint8_range z : 0 <= uint8 z < 2 ^ 8.
Proof. unfold uint8. apply Z.mod_pos_bound. lia. Qed.

Lemma uint8_uint16 v : 0 <= v < 2 ^ 8 -> uint8 (uint16 v) = v.
Proof.
  intros Hv. unfold uint8, uint16.
  rewrite (Z.mod_small v (2 ^ 16)) by lia. apply Z.mod_small. exact Hv.
Qed.

Lemma expectedGray_value x y :
  exists v, expectedGray x y = Gray v /\ 0 <= v < 2 ^ 8.
Proof.
  unfold expectedGray.
  destruct ((Z.rem x 5 =? 0) || (Z.rem y 5 =? 0)); [exists 0x55; split; [reflexivity|lia]|].
  destruct (Z.rem (Z.quot y 5) 2 =? 0); [eexists; split; [reflexivity|apply uint8_range]|].
  destruct (Z.rem (Z.quot y 5) 2 =? 1); [eexists; split; [reflexivity|apply uint8_range]|].
  exists 0. split; [reflexivity|lia].
Qed.

Lemma expectedColor_value x y :
  0 <= y ->
  exists r g b, expectedColor x y = RGBA r g b 255 /\
                0 <= r < 2 ^ 8 /\ 0 <= g < 2 ^ 8 /\ 0 <= b < 2 ^ 8.
Proof.
  intros Hy. unfold expectedColor.
  destruct ((Z.rem x 5 =? 0) || (Z.rem y 5 =? 0));
    [exists 0x55, 0x55, 0x55; repeat split; lia|].
  set (s := if Z.rem (Z.quot y 5) 2 =? 0
            then uint8 (Z.rem (Z.quot x 5) 255)
            else uint8 (255 - Z.rem (Z.quot x 5) 255)).
  assert (Hs : 0 <= s < 2 ^ 8)
    by (unfold s; destruct (Z.rem (Z.quot y 5) 2 =? 0); apply uint8_range).
  assert (Hk : 0 <= Z.rem (Z.quot y 5) 6 < 6).
  { apply Z.rem_bound_pos; [|lia]. apply Z.quot_pos; lia. }
  destruct (Z.eqb_spec (Z.rem (Z.quot y 5) 6) 0);
    [exists s, 0, 0; repeat split; lia|].
  destruct (Z.eqb_spec (Z.rem (Z.quot y 5) 6) 1);
    [exists s, 0, 0; repeat split; lia|].
  cbn [orb].
  destruct (Z.eqb_spec (Z.rem (Z.quot y 5) 6) 2);
    [exists 0, s, 0; repeat split; lia|].
  destruct (Z.eqb_spec (Z.rem (Z.quot y 5) 6) 3);
    [exists 0, s, 0; repeat split; lia|].
  cbn [orb].
  destruct (Z.eqb_spec (Z.rem (Z.quot y 5) 6) 4);
    [exists 0, 0, s; repeat split; lia|].
  destruct (Z.eqb_spec (Z.rem (Z.quot y 5) 6) 5);
    [exists 0, 0, s; repeat split; lia|].
  lia.
Qed.

(** The frames built from the test picture carry it. *)
Lemma testGray_picture w h x y :
  Gray (uint8 (sample (testGray w h) x y 0)) = expectedGray x y.
Proof.
  unfold sample, testGray. cbn [data].
  destruct (expectedGray_value x y) as (v & -> & Hv). cbn [grayValue].
  now rewrite uint8_uint16.
Qed.

Lemma testColor_picture fr fg fb (kr kg kb : Z) x y :
  0 <= y ->
  sample fr x y kr = uint16 (channel 0 (expectedColor x y)) ->
  sample fg x y kg = uint16 (channel 1 (expectedColor x y)) ->
  sample fb x y kb = uint16 (channel 2 (expectedColor x y)) ->
  RGBA (uint8 (sample fr x y kr)) (uint8 (sample fg x y kg))
       (uint8 (sample fb x y kb)) 255 = expectedColor x y.
Proof.
  intros Hy -> -> ->.
  destruct (expectedColor_value x y Hy) as (r & g & b & -> & Hr & Hg & Hb).
  cbn [channel Z.eqb]. now rewrite !uint8_uint16.
Qed.

Lemma tests_pass_witness :
  (exists m, readImage 1 (device [Ok (testGray 12 7)]) =
               Some (Returns (Some m), Cancel (advance (device [Ok (testGray 12 7)]) 1)) /\
             checkGray m = Returns true) /\
  (exists m, readImage 1 (device [Ok (testRgb 12 7)]) =
               Some (Returns (Some m), Cancel (advance (device [Ok (testRgb 12 7)]) 1)) /\
             checkColor m = Returns true) /\
  (exists m, readImage 3 (device [Ok (testPlane FrameBlue 2 false 12 7);
                                  Ok (testPlane FrameRed 0 false 12 7);
                                  Ok (testPlane FrameGreen 1 true 12 7)]) =
               Some (Returns (Some m),
                     Cancel (advance (device [Ok (testPlane FrameBlue 2 false 12 7);
                                              Ok (testPlane FrameRed 0 false 12 7);
                                              Ok (testPlane FrameGreen 1 true 12 7)]) 3)) /\
             checkColor m = Returns true).
Proof.
  destruct (tests_pass (device [Ok (testGray 12 7)])) as (GrayTest & _).
  destruct (tests_pass (device [Ok (testRgb 12 7)])) as (_ & ColorTest & _).
  destruct (tests_pass (device [Ok (testPlane FrameBlue 2 false 12 7);
                                Ok (testPlane FrameRed 0 false 12 7);
                                Ok (testPlane FrameGreen 1 true 12 7)]))
    as (_ & _ & ThreePass).
  split; [|split].
  - apply (GrayTest (testGray 12 7)); try reflexivity; try lia.
    intros x y _. apply testGray_picture.
  - apply (ColorTest (testRgb 12 7)); try reflexivity; try lia.
    intros x y [_ Hy]. apply testColor_picture; [lia | reflexivity ..].
  - apply (ThreePass (testPlane FrameBlue 2 false 12 7)
                     (testPlane FrameRed 0 false 12 7)
                     (testPlane FrameGreen 1 true 12 7)
                     (testPlane FrameRed 0 false 12 7)
                     (testPlane FrameGreen 1 true 12 7)
                     (testPlane FrameBlue 2 false 12 7));
      try reflexivity; try lia.
    + intros [|[|[|j]]] f E; cbn in E; try (inversion E; subst; reflexivity).
      destruct j; discriminate.
    + apply Permutation_sym.
      apply perm_trans with [testPlane FrameRed 0 false 12 7;
                             testPlane FrameBlue 2 false 12 7;
                             testPlane FrameGreen 1 true 12 7].
      * apply perm_swap.
      * apply perm_skip. apply perm_swap.
    + intros x y [_ Hy]. apply testColor_picture; [lia | reflexivity ..].
Defined.
